(** * overpass-client: the query execution pipeline

    A shallow embedding of [OverpassClient] (client.ts) and [OverpassError]
    (errors.ts): the cache lookup of [getElement], the construction of the
    outgoing query, the network attempt, the classification of a failure in
    the [delay] callback handed to the [retry] operator, the backoff of
    [retryAfter], and the extraction of the details of a 400 response by
    [matchAll].

    Conventions of the embedding.
    - A JavaScript string is a [string] of bytes (its UTF-8 encoding).  The
      regular expressions of the client only mention ASCII characters, and
      the byte of an ASCII character never occurs inside the encoding of
      another character, so matching bytes and matching characters agree.
    - A JavaScript number that the code uses as a count, an id or a status
      is a [Z]; a duration or a point in time is a [Q]; where the code can
      produce NaN the type [number] below has a constructor for it.  The
      arithmetic is exact: the rounding of floating-point numbers is not
      modelled, and the statements that depend on exact integers say so.
    - [Math.random], the HTTP transport and its latency are inputs, gathered
      in a [World]; the client's mutable parts (the LRU cache, the clock)
      are a [State] threaded through a small state monad, which also records
      the observable events in a trace.  A timer fires exactly when it is
      due.
    - An observable that emits one value and completes, or fails, is a
      computation returning a [Notification]: calling a method of the
      client and subscribing to the observable it returns is one run.
    - The payload of an answered request is a [ResponseData]: the client
      declares it an [OverpassResponse], but caches and tests for
      truthiness whatever JSON value or text axios hands over.
    - The packages rxjs, axios and lru-cache are not part of the
      repository; the operators and methods that the client calls are
      modelled after their documented behaviour, each next to its use. *)

From Stdlib Require Import ZArith QArith Qminmax Bool List String Ascii Lia Lqa.
From Stdlib Require Import DecimalString.
From Stdlib Require DecimalZ.
Import ListNotations.

Local Open Scope string_scope.
Local Open Scope Z_scope.

Set Implicit Arguments.

(* ================================================================== *)
(** * JavaScript strings and numbers *)
(* ================================================================== *)

Module JS.

(** A number as the timers of the client receive it. *)
Inductive number : Type :=
| Num (q : Q)
| NaN.

(** [`${n}`] for an integral number [n] (below 10^21 in absolute value,
    where JavaScript prints all the digits). *)
Definition toString (n : Z) : string := NilZero.string_of_int (Z.to_int n).

(** The double quote and the line feed, as one-character strings. *)
Definition dquote : string := String "034"%char EmptyString.
Definition newline : string := String "010"%char EmptyString.

(** [s.startsWith(p)], returning what follows the prefix. *)
Fixpoint stripPrefix (p s : string) : option string :=
  match p, s with
  | EmptyString, _ => Some s
  | String a p', String b s' => if Ascii.eqb a b then stripPrefix p' s' else None
  | String _ _, EmptyString => None
  end.

(** [s.includes(sub)] *)
Fixpoint includes (s sub : string) : bool :=
  match stripPrefix sub s with
  | Some _ => true
  | None =>
      match s with
      | String _ s' => includes s' sub
      | EmptyString => false
      end
  end.

(** [xs.join(sep)]. *)
Definition join (sep : string) (xs : list string) : string := String.concat sep xs.

(** [s.replace(/pat/g, rep)] for a literal, non-empty pattern: the
    occurrences are replaced from left to right, and the search resumes
    after each replaced occurrence.  The fuel bounds the number of
    characters still to be read. *)
Fixpoint replaceLoop (fuel : nat) (pat rep s : string) : string :=
  match fuel with
  | O => s
  | S fuel' =>
      match s with
      | EmptyString => EmptyString
      | String c s' =>
          match stripPrefix pat s with
          | Some rest => rep ++ replaceLoop fuel' pat rep rest
          | None => String c (replaceLoop fuel' pat rep s')
          end
      end
  end.

Definition replaceAll (pat rep s : string) : string :=
  replaceLoop (String.length s) pat rep s.

(** ** [parseInt(s, 10)] *)

Definition isWhiteSpace (c : ascii) : bool :=
  let n := nat_of_ascii c in
  ((9 <=? n) && (n <=? 13) || (n =? 32))%nat.

Definition digit (c : ascii) : option Z :=
  let n := nat_of_ascii c in
  if ((48 <=? n) && (n <=? 57))%nat then Some (Z.of_nat n - 48) else None.

Fixpoint skipWhiteSpace (s : string) : string :=
  match s with
  | String c s' => if isWhiteSpace c then skipWhiteSpace s' else s
  | EmptyString => s
  end.

(** The value of the longest prefix of decimal digits, continuing [acc]. *)
Fixpoint digits (acc : Z) (s : string) : Z :=
  match s with
  | String c s' =>
      match digit c with
      | Some d => digits (10 * acc + d) s'
      | None => acc
      end
  | EmptyString => acc
  end.

Definition unsignedDigits (s : string) : option Z :=
  match s with
  | String c _ =>
      match digit c with
      | Some _ => Some (digits 0 s)
      | None => None
      end
  | EmptyString => None
  end.

(** [None] stands for NaN. *)
Definition parseInt (s : string) : option Z :=
  match skipWhiteSpace s with
  | String "-" s' => option_map Z.opp (unsignedDigits s')
  | String "+" s' => unsignedDigits s'
  | s' => unsignedDigits s'
  end.

(** ** [encodeURIComponent] *)

Definition isUnreserved (c : ascii) : bool :=
  let n := nat_of_ascii c in
  ((65 <=? n) && (n <=? 90) || (97 <=? n) && (n <=? 122)
   || (48 <=? n) && (n <=? 57)
   || (n =? 45) || (n =? 95) || (n =? 46) || (n =? 33) || (n =? 126)
   || (n =? 42) || (n =? 39) || (n =? 40) || (n =? 41))%nat.

Definition hexDigit (n : nat) : ascii :=
  ascii_of_nat (if (n <? 10)%nat then 48 + n else 55 + n).

Fixpoint encodeURIComponent (s : string) : string :=
  match s with
  | EmptyString => EmptyString
  | String c s' =>
      if isUnreserved c then String c (encodeURIComponent s')
      else
        let n := nat_of_ascii c in
        String "%" (String (hexDigit (n / 16)) (String (hexDigit (n mod 16))
                   (encodeURIComponent s')))
  end.

End JS.

(* ================================================================== *)
(** * The regular expression of the 400 handler and [matchAll] *)
(* ================================================================== *)

(** The only regular expression given to [matchAll] has the shape
    [/before([inside]+)after/g]: a literal, one capture group holding a
    greedy repetition of a character class, a literal. *)
Record RegExp : Type := {
  before : string;
  inside : ascii -> bool;
  after : string
}.

(** [/<\/strong>: ([^<]+) <\/p>/g] *)
Definition errorRegex : RegExp :=
  {| before := "</strong>: ";
     inside := fun c => negb (Ascii.eqb c "<");
     after := " </p>" |}.

(** The greedy repetition [(cls+)] followed by [after], by backtracking:
    having read [acc], read one more character of the class, then try the
    longer captures first and the continuation [after] last.  The result is
    the capture and the text after the match. *)
Fixpoint captureThen (cls : ascii -> bool) (aft : string) (acc s : string)
  : option (string * string) :=
  match s with
  | String c s' =>
      if cls c then
        let acc' := acc ++ String c EmptyString in
        match captureThen cls aft acc' s' with
        | Some r => Some r
        | None =>
            match JS.stripPrefix aft s' with
            | Some rest => Some (acc', rest)
            | None => None
            end
        end
      else None
  | EmptyString => None
  end.

(** A match that starts at the first character of [s]. *)
Definition matchAt (regex : RegExp) (s : string) : option (string * string) :=
  match JS.stripPrefix (before regex) s with
  | Some s1 => captureThen (inside regex) (after regex) EmptyString s1
  | None => None
  end.

(** [regex.exec(string)] for a global expression: [s] is the text from
    [lastIndex] on; the leftmost match is returned with the text from the
    new [lastIndex] on. *)
Fixpoint exec (regex : RegExp) (s : string) : option (string * string) :=
  match matchAt regex s with
  | Some r => Some r
  | None =>
      match s with
      | String _ s' => exec regex s'
      | EmptyString => None
      end
  end.

(** The loop [while ((match = regex.exec(string))) matches.push(match[1])]. *)
Fixpoint matchLoop (fuel : nat) (regex : RegExp) (s : string) : list string :=
  match fuel with
  | O => []
  | S fuel' =>
      match exec regex s with
      | Some (m1, rest) => m1 :: matchLoop fuel' regex rest
      | None => []
      end
  end.

Definition matchAll (regex : RegExp) (s : string) : list string :=
  matchLoop (S (String.length s)) regex s.

(* ================================================================== *)
(** * errors.ts *)
(* ================================================================== *)

Record OverpassError : Type := {
  name : string;
  message : string
}.

(** [new OverpassError(message, errors, query)]; an omitted argument is
    [None]. *)
Definition newOverpassError (msg : string) (errors : option (list string))
    (query : option string) : OverpassError :=
  let detailedError :=
    match errors with
    | Some (e :: es) => JS.newline ++ "Details: " ++ JS.join "; " (e :: es)
    | _ => ""
    end in
  let queryMessage :=
    match query with
    | Some (String c q) => String c q ++ " "
    | _ => ""
    end in
  {| name := "OverpassError";
     message := "Overpass Error: " ++ queryMessage ++ msg ++ detailedError |}.

(* ================================================================== *)
(** * The response types of client.ts *)
(* ================================================================== *)

Inductive ElementType : Type := node | way | relation.

Definition typeName (t : ElementType) : string :=
  match t with
  | node => "node"
  | way => "way"
  | relation => "relation"
  end.

Record Center : Type := { center_lat : Q; center_lon : Q }.

Record Member : Type := { member_type : ElementType; ref : Z; role : string }.

Inductive OverpassElement : Type :=
| OverpassNode (id : Z) (lat lon : Q) (tags : list (string * string))
| OverpassWay (id : Z) (center : Center) (nodes : list Z)
    (tags : list (string * string))
| OverpassRelation (id : Z) (center : Center) (members : list Member)
    (tags : list (string * string)).

Record Osm3s : Type := { timestamp_osm_base : string; copyright : string }.

Record OverpassResponse : Type := {
  generator : string;
  version : string;
  osm3s : Osm3s;
  elements : list OverpassElement
}.

(** [response.data] of an answered request.  The client declares it an
    [OverpassResponse]; at run time axios hands over whatever the body of
    the answer is: the object of a JSON body of that shape, another JSON
    object or an array (kept as its text), a JSON string or the text of a
    body that is not JSON (the empty string for an empty body), a number,
    a boolean or [null]. *)
Inductive ResponseData : Type :=
| Parsed (body : OverpassResponse)
| Structured (json : string)
| Text (s : string)
| Number (q : Q)
| Boolean (b : bool)
| Null.

(** The truthiness of a value, which [if (cached)] tests: objects and
    arrays are truthy; the empty string, zero, [false] and [null] are
    not. *)
Definition truthy (d : ResponseData) : bool :=
  match d with
  | Parsed _ => true
  | Structured _ => true
  | Text s => negb (String.eqb s "")
  | Number q => negb (Qeq_bool q 0)
  | Boolean b => b
  | Null => false
  end.

(* ================================================================== *)
(** * The LRU cache *)
(* ================================================================== *)

(** The part of the lru-cache package that the client relies on, for a
    cache built with the options [max] and [ttl] only: an entry older than
    [ttl] is stale, [get] removes a stale entry and answers [undefined],
    and a [set] that finds the cache full evicts the least recently used
    entry.  The entries are kept most recently used first; [max = 0]
    stands for a cache without a bound on its size, [ttl = 0] for entries
    that never become stale. *)
Module LRUCache.

Record Entry : Type := {
  key : string;
  value : ResponseData;
  start : Q
}.

Record t : Type := {
  max : nat;
  ttl : Q;
  entries : list Entry
}.

Definition Qltb (a b : Q) : bool := negb (Qle_bool b a).

Definition hasKey (k : string) (e : Entry) : bool := String.eqb (key e) k.

Definition peek (k : string) (c : t) : option Entry :=
  find (hasKey k) (entries c).

Definition isStale (c : t) (now : Q) (e : Entry) : bool :=
  Qltb 0 (ttl c) && Qltb (ttl c) (now - start e).

Definition remove (k : string) (es : list Entry) : list Entry :=
  filter (fun e => negb (hasKey k e)) es.

Definition withEntries (c : t) (es : list Entry) : t :=
  {| max := max c; ttl := ttl c; entries := es |}.

Definition delete (k : string) (c : t) : t :=
  withEntries c (remove k (entries c)).

Definition get (now : Q) (k : string) (c : t) : option ResponseData * t :=
  match peek k c with
  | None => (None, c)
  | Some e =>
      if isStale c now e then (None, delete k c)
      else (Some (value e), withEntries c (e :: remove k (entries c)))
  end.

Definition set (now : Q) (k : string) (v : ResponseData) (c : t) : t :=
  let e := {| key := k; value := v; start := now |} in
  match peek k c with
  | Some _ => withEntries c (e :: remove k (entries c))
  | None =>
      if (negb (max c =? 0) && (max c <=? List.length (entries c)))%nat
      then withEntries c (e :: removelast (entries c))
      else withEntries c (e :: entries c)
  end.

Definition clear (c : t) : t := withEntries c [].

Definition size (c : t) : nat := List.length (entries c).

(** [new LRUCache({ max: 500, ttl: 5 * 60 * 1000 })] *)
Definition default : t :=
  {| max := 500; ttl := inject_Z (5 * 60 * 1000); entries := [] |}.

End LRUCache.

(* ================================================================== *)
(** * The transport, the world and the state *)
(* ================================================================== *)

(** [error.response] of an AxiosError. *)
Record AxiosResponse : Type := {
  status : Z;
  statusText : option string;
  headers : option (list (string * string));
  data : string
}.

(** What the source observable can fail with: an error for which
    [axios.isAxiosError] holds, with its optional response, or anything
    else. *)
Inductive Failure : Type :=
| AxiosError (response : option AxiosResponse)
| OtherError (description : string).

(** The promise returned by [axiosInstance.post(...).then(r => r.data)]. *)
Inductive Outcome : Type :=
| Resolved (payload : ResponseData)
| Rejected (err : Failure).

(** The inputs the client does not control: the outcome and the duration of
    the n-th request sent, and the n-th value of [Math.random()]. *)
Record World : Type := {
  responses : nat -> Outcome;
  latency : nat -> Q;
  random : nat -> Q
}.

(** What the subscriber of the returned observable receives as an error:
    an [OverpassError] built by the [delay] callback, or the error of the
    source passed along unchanged by [retry]. *)
Inductive Thrown : Type :=
| Wrapped (e : OverpassError)
| Raw (err : Failure).

(** [Pending] is the answer of a loop that ran out of fuel;
    [retry_never_pending] shows that [retry] never gives it. *)
Inductive Notification : Type :=
| Next (v : ResponseData)
| Error (e : Thrown)
| Pending.

Inductive Warning : Type :=
| RateLimitReached (retryAfterMs : JS.number)
| TransientError (retryAfter : Q).

Inductive Event : Type :=
| EvPost (body : string)
| EvCacheSet (k : string) (v : ResponseData)
| EvCacheDelete (k : string)
| EvWarn (w : Warning)
| EvWait (due : JS.number)
| EvNotify (n : Notification).

Record State : Type := {
  lruCache : LRUCache.t;
  now : Q;
  posts : nat;
  draws : nat;
  trace : list Event
}.

(** The number of requests sent, read off a trace. *)
Definition isPost (e : Event) : bool :=
  match e with
  | EvPost _ => true
  | _ => false
  end.

Definition invocations (tr : list Event) : nat :=
  List.length (filter isPost tr).

(** ** The state monad *)

Definition M (A : Type) : Type := State -> A * State.

Definition ret {A : Type} (a : A) : M A := fun st => (a, st).

Definition bind {A B : Type} (m : M A) (f : A -> M B) : M B :=
  fun st => let (a, st') := m st in f a st'.

Notation "x <- c1 ;; c2" := (bind c1 (fun x => c2))
  (at level 61, c1 at next level, right associativity).
Notation "c1 ;; c2" := (bind c1 (fun _ => c2))
  (at level 61, right associativity).

Definition log (e : Event) : M unit :=
  fun st =>
    (tt, {| lruCache := lruCache st; now := now st; posts := posts st;
            draws := draws st; trace := trace st ++ [e] |}).

Definition cacheGet (k : string) : M (option ResponseData) :=
  fun st =>
    let (r, c) := LRUCache.get (now st) k (lruCache st) in
    (r, {| lruCache := c; now := now st; posts := posts st;
           draws := draws st; trace := trace st |}).

Definition cacheSet (k : string) (v : ResponseData) : M unit :=
  fun st =>
    (tt, {| lruCache := LRUCache.set (now st) k v (lruCache st);
            now := now st; posts := posts st; draws := draws st;
            trace := trace st ++ [EvCacheSet k v] |}).

Definition cacheDelete (k : string) : M unit :=
  fun st =>
    (tt, {| lruCache := LRUCache.delete k (lruCache st);
            now := now st; posts := posts st; draws := draws st;
            trace := trace st ++ [EvCacheDelete k] |}).

(** [Math.random()] *)
Definition mathRandom (w : World) : M Q :=
  fun st =>
    (random w (draws st),
     {| lruCache := lruCache st; now := now st; posts := posts st;
        draws := S (draws st); trace := trace st |}).

(** One request: [axiosInstance.post('', body)]. *)
Definition post (w : World) (body : string) : M Outcome :=
  fun st =>
    (responses w (posts st),
     {| lruCache := lruCache st;
        now := (now st + Qmax 0 (latency w (posts st)))%Q;
        posts := S (posts st); draws := draws st;
        trace := trace st ++ [EvPost body] |}).

(** Waiting for a timer: a negative due time counts as zero, and NaN lets
    the timer fire at once. *)
Definition elapse (due : JS.number) (t : Q) : Q :=
  match due with
  | JS.Num q => (t + Qmax 0 q)%Q
  | JS.NaN => t
  end.

Definition wait (due : JS.number) : M unit :=
  fun st =>
    (tt, {| lruCache := lruCache st; now := elapse due (now st);
            posts := posts st; draws := draws st;
            trace := trace st ++ [EvWait due] |}).

(** Handing a notification to the subscriber. *)
Definition notify (n : Notification) : M Notification :=
  log (EvNotify n) ;; ret n.

(* ================================================================== *)
(** * The [retry] operator of rxjs *)
(* ================================================================== *)

(** What the [delay] callback returns: [throwError(() => e)] or
    [timer(due)]. *)
Inductive Notifier : Type :=
| ThrowError (e : OverpassError)
| Timer (due : JS.number).

(** [subscribeForRetry] of [retry({ count, delay })]: subscribe to the
    source; on an error, [if (soFar++ < count)] call [delay(err, soFar)]
    with the incremented counter and subscribe to the notifier it returns:
    when the notifier emits, resubscribe to the source; when it fails, pass
    its error on.  Past [count], the error of the source is passed on. *)
Fixpoint subscribeForRetry (fuel : nat) (count : Z)
    (delay : Failure -> Z -> M Notifier) (source : M Outcome) (soFar : Z)
  : M Notification :=
  match fuel with
  | O => ret Pending
  | S fuel' =>
      r <- source ;;
      match r with
      | Resolved value => notify (Next value)
      | Rejected err =>
          if soFar <? count then
            let soFar' := soFar + 1 in
            notifier <- delay err soFar' ;;
            match notifier with
            | Timer due =>
                wait due ;;
                subscribeForRetry fuel' count delay source soFar'
            | ThrowError e => notify (Error (Wrapped e))
            end
          else notify (Error (Raw err))
      end
  end.

(** [retry]: with [count <= 0] the operator is the identity; otherwise the
    source is subscribed to at most [count + 1] times. *)
Definition retry (count : Z) (delay : Failure -> Z -> M Notifier)
    (source : M Outcome) : M Notification :=
  if count <=? 0 then
    r <- source ;;
    match r with
    | Resolved value => notify (Next value)
    | Rejected err => notify (Error (Raw err))
    end
  else subscribeForRetry (S (Z.to_nat count)) count delay source 0.

(* ================================================================== *)
(** * client.ts *)
(* ================================================================== *)

Inductive Format : Type := json | xml.

Definition formatName (f : Format) : string :=
  match f with
  | json => "json"
  | xml => "xml"
  end.

(** The read-only fields of a client; its [lruCache] is in the [State]. *)
Record OverpassClient : Type := {
  endpoint : string;
  format : Format;
  timeout : Z;
  maxRetries : Z
}.

(** [new OverpassClient()] *)
Definition defaultClient : OverpassClient :=
  {| endpoint := "https://overpass-api.de/api/interpreter";
     format := json; timeout := 60; maxRetries := 3 |}.

Definition header (h : string) (response : AxiosResponse) : option string :=
  match headers response with
  | Some hs =>
      match find (fun kv => String.eqb (fst kv) h) hs with
      | Some kv => Some (snd kv)
      | None => None
      end
  | None => None
  end.

Section Client.

Variable w : World.
Variable this : OverpassClient.

(** [retryAfter(attempt, retryAfterMs)].  The operator [retry] only passes
    positive attempts, for which [Math.pow(2, attempt)] is the integral
    power. *)
Definition retryAfter (attempt : Z) (retryAfterMs : option JS.number)
  : M Notifier :=
  match retryAfterMs with
  | Some ms =>
      log (EvWarn (RateLimitReached ms)) ;;
      ret (Timer ms)
  | None =>
      let baseDelay := 2 ^ attempt * 1000 in
      r <- mathRandom w ;;
      let retryAfter := (r * inject_Z baseDelay)%Q in
      log (EvWarn (TransientError retryAfter)) ;;
      ret (Timer (JS.Num retryAfter))
  end.

(** The text sent for [query]. *)
Definition fullQuery (query : string) : string :=
  let timeoutEnabled :=
    if negb (timeout this =? 0)
    then "[timeout:" ++ JS.toString (timeout this) ++ "]"
    else "" in
  "[out:" ++ formatName (format this) ++ "]" ++ timeoutEnabled ++ ";" ++ query.

(** [err.replace(/&quot;/g, Q)], where [Q] is the double quote. *)
Definition decodeQuotes (err : string) : string :=
  JS.replaceAll "&quot;" JS.dquote err.

(** The details of a 400 response. *)
Definition badRequestDetails (body : string) : list string :=
  map decodeQuotes (matchAll errorRegex body).

(** The value of [retryAfter] in the 429 case. *)
Definition retryAfterHeader (response : AxiosResponse) : option JS.number :=
  match header "retry-after" response with
  | Some (String c h) =>
      Some match JS.parseInt (String c h) with
           | Some n => JS.Num (inject_Z (n * 1000))
           | None => JS.NaN
           end
  | _ => None
  end.

(** The [delay] callback of [query]. *)
Definition delay (query cachedKey : string) (error : Failure) (attempt : Z)
  : M Notifier :=
  match error with
  | AxiosError response =>
      cacheDelete cachedKey ;;
      if maxRetries this <=? attempt then
        let text :=
          match response with
          | Some r =>
              match statusText r with
              | Some s => s
              | None => ""
              end
          | None => ""
          end in
        ret (ThrowError
               (newOverpassError ("Max retries exceeded. Request failed " ++ text)
                  None (Some query)))
      else
        match response with
        | Some response =>
            if status response =? 400 then
              let errors := badRequestDetails (data response) in
              ret (ThrowError
                     (newOverpassError "Bad Request Error" (Some errors) (Some query)))
            else if status response =? 429 then
              retryAfter attempt (retryAfterHeader response)
            else if (status response =? 500) || (status response =? 502)
                    || (status response =? 503) || (status response =? 504) then
              retryAfter attempt None
            else
              let st := if status response =? 0 then ""
                        else "[" ++ JS.toString (status response) ++ "] - " in
              let text :=
                match statusText response with
                | Some s => s
                | None => "Unknown error occured"
                end in
              ret (ThrowError (newOverpassError (st ++ text) None None))
        | None =>
            ret (ThrowError
                   (newOverpassError "Something went wrong" None (Some query)))
        end
  | OtherError _ =>
      ret (ThrowError
             (newOverpassError "Unknown error occurred" None (Some query)))
  end.

(** The body of the request sent for [query]. *)
Definition requestBody (query : string) : string :=
  "data=" ++ JS.encodeURIComponent (fullQuery query).

(** The source of [query]: the deferred request, followed by
    [tap((data) => this.lruCache.set(cachedKey, data))]. *)
Definition source (query cachedKey : string) : M Outcome :=
  r <- post w (requestBody query) ;;
  match r with
  | Resolved payload => cacheSet cachedKey payload ;; ret (Resolved payload)
  | Rejected err => ret (Rejected err)
  end.

(** [query(query, cachedKey)], subscribed to. *)
Definition query (query cachedKey : string) : M Notification :=
  retry (maxRetries this) (delay query cachedKey) (source query cachedKey).

Definition elementKey (type : ElementType) (id : Z) : string :=
  typeName type ++ "-" ++ JS.toString id.

Definition elementQuery (type : ElementType) (id : Z) (outputFormat : string)
  : string :=
  typeName type ++ "(" ++ JS.toString id ++ "); " ++ outputFormat.

(** [getElement(type, id, outputFormat)], subscribed to: [if (cached)]
    holds when [get] found an entry and its value is truthy; the cached
    value is then emitted through [delay(200)]. *)
Definition getElement (type : ElementType) (id : Z) (outputFormat : string)
  : M Notification :=
  let key := elementKey type id in
  cached <- cacheGet key ;;
  match cached with
  | Some v =>
      if truthy v then wait (JS.Num 200) ;; notify (Next v)
      else query (elementQuery type id outputFormat) key
  | None => query (elementQuery type id outputFormat) key
  end.

(** [clearCache()] *)
Definition clearCache : M unit :=
  fun st =>
    (tt, {| lruCache := LRUCache.clear (lruCache st); now := now st;
            posts := posts st; draws := draws st; trace := trace st |}).

End Client.

(* ================================================================== *)
(** * The vocabulary of the specification *)
(* ================================================================== *)

(** [error.response?.statusText ?? ''] *)
Definition statusTextOrEmpty (response : option AxiosResponse) : string :=
  match response with
  | Some r =>
      match statusText r with
      | Some s => s
      | None => ""
      end
  | None => ""
  end.

(** The error kinds of the specification, as the [OverpassError] values
    that the [delay] callback builds for them. *)
Definition maxRetriesExceeded (query : string) (response : option AxiosResponse)
  : OverpassError :=
  newOverpassError
    ("Max retries exceeded. Request failed " ++ statusTextOrEmpty response)
    None (Some query).

Definition badRequest (query body : string) : OverpassError :=
  newOverpassError "Bad Request Error" (Some (badRequestDetails body)) (Some query).

Definition unknownStatus (response : AxiosResponse) : OverpassError :=
  newOverpassError
    ((if status response =? 0 then ""
      else "[" ++ JS.toString (status response) ++ "] - ")
     ++ match statusText response with
        | Some s => s
        | None => "Unknown error occured"
        end)
    None None.

Definition networkFailure (query : string) : OverpassError :=
  newOverpassError "Something went wrong" None (Some query).

Definition unknownError (query : string) : OverpassError :=
  newOverpassError "Unknown error occurred" None (Some query).

(** The statuses answered by a computed backoff, and the retryable ones. *)
Definition isServerUnavailable (s : Z) : bool :=
  (s =? 500) || (s =? 502) || (s =? 503) || (s =? 504).

Definition isRetryableStatus (s : Z) : bool :=
  (s =? 429) || isServerUnavailable s.

Definition retryable (err : Failure) : bool :=
  match err with
  | AxiosError (Some r) => isRetryableStatus (status r)
  | _ => false
  end.

(** A failure that the decision table classifies as fatal: a 400, a status
    outside the table, no response at all, or an error that does not come
    from the transport. *)
Definition fatal (err : Failure) : bool :=
  match err with
  | AxiosError (Some r) => negb (isRetryableStatus (status r))
  | AxiosError None => true
  | OtherError _ => true
  end.

(** The error that a fatal failure is reported with. *)
Definition fatalError (query : string) (err : Failure) : OverpassError :=
  match err with
  | AxiosError (Some r) =>
      if status r =? 400 then badRequest query (data r) else unknownStatus r
  | AxiosError None => networkFailure query
  | OtherError _ => unknownError query
  end.

(** What a fatal failure does to the cache. *)
Definition cacheAfterFatal (cachedKey : string) (err : Failure) (c : LRUCache.t)
  : LRUCache.t :=
  match err with
  | AxiosError _ => LRUCache.delete cachedKey c
  | OtherError _ => c
  end.

(** A failure without a retry-after delay: a 500, 502, 503 or 504, or a
    429 whose [retry-after] header is missing or empty. *)
Definition computedBackoff (r : AxiosResponse) : bool :=
  isServerUnavailable (status r)
  || (status r =? 429)
     && match header "retry-after" r with
        | Some (String _ _) => false
        | _ => true
        end.

Definition isWait (e : Event) : bool :=
  match e with
  | EvWait _ => true
  | _ => false
  end.

(** ** The details of a 400 response, in the words of the specification *)


Fixpoint allChars (p : ascii -> bool) (s : string) : bool :=
  match s with
  | EmptyString => true
  | String c s' => p c && allChars p s'
  end.




(** ** The states of a run *)

(** The state after the request, after the write of [tap], after the
    invalidation of the [delay] callback, after a notification, after a
    wait. *)
Definition posted (w : World) (this : OverpassClient) (q : string) (st : State)
  : State := snd (post w (requestBody this q) st).

Definition cached (cachedKey : string) (v : ResponseData) (st : State)
  : State := snd (cacheSet cachedKey v st).

Definition invalidated (cachedKey : string) (st : State) : State :=
  snd (cacheDelete cachedKey st).

Definition notified (n : Notification) (st : State) : State := snd (notify n st).

Definition waited (due : JS.number) (st : State) : State := snd (wait due st).

(** The events [evs] of a run from [st] to [st'] extend the trace; every
    request carries the body built from [fullQuery]; the counter of
    requests agrees with the trace. *)
Definition extends (this : OverpassClient) (q : string) (st st' : State)
    (evs : list Event) : Prop :=
  trace st' = (trace st ++ evs)%list
  /\ posts st' = (posts st + invocations evs)%nat
  /\ (forall b, In (EvPost b) evs -> b = requestBody this q).

(** How a run ends after a last request with outcome [o]. *)
Definition endsWith (o : Outcome) (res : Notification) : Prop :=
  match o with
  | Resolved v => res = Next v
  | Rejected _ => exists e, res = Error e
  end.

(** Every request sent from the [from]-th on fails with a retryable
    status. *)
Definition alwaysRetryable (w : World) (from : nat) : Prop :=
  forall n, (from <= n)%nat ->
    exists r, responses w n = Rejected (AxiosError (Some r))
              /\ isRetryableStatus (status r) = true.

(* ================================================================== *)
(** * The queries by bounding box and by radius *)
(* ================================================================== *)

(** [JSON.stringify] of a string: the quotes and the backslash are escaped,
    the control characters take their short escape or [\u00XX], every other
    byte is kept. *)
Module JSON.

Definition lowerHexDigit (n : nat) : ascii :=
  ascii_of_nat (if (n <? 10)%nat then 48 + n else 87 + n).

Definition quoteChar (c : ascii) : string :=
  let n := nat_of_ascii c in
  if (n =? 34)%nat then "\" ++ JS.dquote
  else if (n =? 92)%nat then "\\"
  else if (n =? 8)%nat then "\b"
  else if (n =? 9)%nat then "\t"
  else if (n =? 10)%nat then "\n"
  else if (n =? 12)%nat then "\f"
  else if (n =? 13)%nat then "\r"
  else if (n <? 32)%nat then
    "\u00" ++ String (lowerHexDigit (n / 16))
                (String (lowerHexDigit (n mod 16)) EmptyString)
  else String c EmptyString.

Fixpoint quoteChars (s : string) : string :=
  match s with
  | EmptyString => EmptyString
  | String c s' => quoteChar c ++ quoteChars s'
  end.

Definition quote (s : string) : string :=
  JS.dquote ++ quoteChars s ++ JS.dquote.

(** [JSON.stringify(values)] for an array of strings. *)
Definition stringifyArray (values : list string) : string :=
  "[" ++ JS.join "," (map quote values) ++ "]".

(** [JSON.stringify(tags)] for a [Record<string, string[]>], given as the
    list of its entries in the order of [Object.entries]. *)
Definition stringify (tags : list (string * list string)) : string :=
  "{"
  ++ JS.join ","
       (map (fun entry => quote (fst entry) ++ ":" ++ stringifyArray (snd entry))
          tags)
  ++ "}".

End JSON.

Section Queries.

Variable w : World.
Variable this : OverpassClient.

(** [`${x}`] for a coordinate or a radius: the conversion of a number that
    need not be integral to a string, which is left open. *)
Variable numberToString : Q -> string.

(** [elements.join('-')] *)
Definition elementsKey (elements : list ElementType) : string :=
  JS.join "-" (map typeName elements).

Definition bboxKey (tags : list (string * list string)) (bbox : Q * Q * Q * Q)
    (elements : list ElementType) : string :=
  let '(minLat, minLon, maxLat, maxLon) := bbox in
  "bbox-" ++ JSON.stringify tags ++ "-"
  ++ JS.join "-" (map numberToString [minLat; minLon; maxLat; maxLon])
  ++ "-" ++ elementsKey elements.

(** [`${element}["${tag}"="${value}"](${minLat},${minLon},${maxLat},${maxLon});`] *)
Definition bboxStatement (bbox : Q * Q * Q * Q) (tag value : string)
    (element : ElementType) : string :=
  let '(minLat, minLon, maxLat, maxLon) := bbox in
  typeName element ++ "[" ++ JS.dquote ++ tag ++ JS.dquote ++ "="
  ++ JS.dquote ++ value ++ JS.dquote ++ "]("
  ++ numberToString minLat ++ "," ++ numberToString minLon ++ ","
  ++ numberToString maxLat ++ "," ++ numberToString maxLon ++ ");".

(** The text built by [Object.entries(tags).flatMap(...).join(' ')] from the
    statement of each tag, value and element. *)
Definition tagFilters (statement : string -> string -> ElementType -> string)
    (tags : list (string * list string)) (elements : list ElementType) : string :=
  JS.join " "
    (flat_map
       (fun entry =>
          map (fun value =>
                 let elementsQuery :=
                   JS.join " " (map (statement (fst entry) value) elements) in
                 "(" ++ elementsQuery ++ ");")
            (snd entry))
       tags).

Definition bboxQuery (tags : list (string * list string)) (bbox : Q * Q * Q * Q)
    (elements : list ElementType) (outputFormat : string) : string :=
  tagFilters (bboxStatement bbox) tags elements ++ " " ++ outputFormat.

(** [getElementsByBoundingBox(tags, bbox, elements, outputFormat)],
    subscribed to. *)
Definition getElementsByBoundingBox (tags : list (string * list string))
    (bbox : Q * Q * Q * Q) (elements : list ElementType) (outputFormat : string)
  : M Notification :=
  let key := bboxKey tags bbox elements in
  cached <- cacheGet key ;;
  match cached with
  | Some v =>
      if truthy v then wait (JS.Num 200) ;; notify (Next v)
      else query w this (bboxQuery tags bbox elements outputFormat) key
  | None => query w this (bboxQuery tags bbox elements outputFormat) key
  end.

Definition radiusKey (tags : list (string * list string)) (lat lon radius : Q)
    (elements : list ElementType) : string :=
  "radius-" ++ JSON.stringify tags ++ "-" ++ numberToString lat ++ "-"
  ++ numberToString lon ++ "-" ++ numberToString radius ++ "-"
  ++ elementsKey elements.

(** [`${element}(around:${radius},${lat},${lon})["${tag}"="${value}"];`] *)
Definition radiusStatement (lat lon radius : Q) (tag value : string)
    (element : ElementType) : string :=
  typeName element ++ "(around:" ++ numberToString radius ++ ","
  ++ numberToString lat ++ "," ++ numberToString lon ++ ")["
  ++ JS.dquote ++ tag ++ JS.dquote ++ "=" ++ JS.dquote ++ value ++ JS.dquote
  ++ "];".

Definition radiusQuery (tags : list (string * list string)) (lat lon radius : Q)
    (elements : list ElementType) (outputFormat : string) : string :=
  tagFilters (radiusStatement lat lon radius) tags elements ++ " " ++ outputFormat.

(** [getElementsByRadius(tags, lat, lon, radius, elements, outputFormat)],
    subscribed to. *)
Definition getElementsByRadius (tags : list (string * list string))
    (lat lon radius : Q) (elements : list ElementType) (outputFormat : string)
  : M Notification :=
  let key := radiusKey tags lat lon radius elements in
  cached <- cacheGet key ;;
  match cached with
  | Some v =>
      if truthy v then wait (JS.Num 200) ;; notify (Next v)
      else query w this (radiusQuery tags lat lon radius elements outputFormat) key
  | None => query w this (radiusQuery tags lat lon radius elements outputFormat) key
  end.

End Queries.

(** The default value of [elements]. *)
Definition allElements : list ElementType := [node; way; relation].

(** ** Further vocabulary *)

(** [x] occurs in [s]. *)
Definition occursIn (x s : string) : Prop :=
  exists pre post, s = pre ++ x ++ post.

(** The inverse of [encodeURIComponent] on bytes. *)
Definition hexValue (c : ascii) : nat :=
  let n := nat_of_ascii c in
  if (n <? 58)%nat then n - 48 else n - 55.

Fixpoint percentDecode (s : string) : string :=
  match s with
  | String "%" (String a (String b rest)) =>
      String (ascii_of_nat (16 * hexValue a + hexValue b)) (percentDecode rest)
  | String c rest => String c (percentDecode rest)
  | EmptyString => EmptyString
  end.

(** The characters of a percent-encoded text. *)
Definition isEncoded (c : ascii) : bool :=
  JS.isUnreserved c || Ascii.eqb c "%".

(** The cache respects its bound. *)
Definition bounded (c : LRUCache.t) : Prop :=
  LRUCache.max c = 0%nat \/ (LRUCache.size c <= LRUCache.max c)%nat.

(** An [OverpassError] as the constructor builds it. *)
Definition isOverpassError (e : OverpassError) : Prop :=
  name e = "OverpassError" /\ exists rest, message e = "Overpass Error: " ++ rest.

(** The state [st] with another cache. *)
Definition withCache (c : LRUCache.t) (st : State) : State :=
  {| lruCache := c; now := now st; posts := posts st; draws := draws st;
     trace := trace st |}.

(* ================================================================== *)
(** * Sample inputs *)
(* ================================================================== *)

Module Sample.

Definition payload : ResponseData :=
  Parsed
    {| generator := "Overpass API"; version := "0.6";
       osm3s := {| timestamp_osm_base := "2025-01-01T00:00:00Z"; copyright := "" |};
       elements := [OverpassNode 123 (4885 # 100) (235 # 100) []] |}.

Definition response (code : Z) (text : string)
    (hs : option (list (string * string))) (content : string) : AxiosResponse :=
  {| status := code; statusText := Some text; headers := hs; data := content |}.

Definition failed (r : AxiosResponse) : Outcome := Rejected (AxiosError (Some r)).

Definition serviceUnavailable : AxiosResponse :=
  response 503 "Service Unavailable" None "".

Definition badRequestBody : string :=
  "<p><strong>Error</strong>: Invalid syntax &quot;test&quot; </p>".

Definition badRequestResponse : AxiosResponse :=
  response 400 "Bad Request" None badRequestBody.

Definition rateLimited (h : string) : AxiosResponse :=
  response 429 "Too Many Requests" (Some [("retry-after", h)]) "".

(** A transport that answers the first requests as listed and every later
    one with [o]; every request takes 10 ms; [Math.random()] is 0.75. *)
Definition world (script : list Outcome) (o : Outcome) : World :=
  {| responses := fun n => nth n script o;
     latency := fun _ => 10%Q;
     random := fun _ => (3 # 4)%Q |}.

Definition client (retries : Z) : OverpassClient :=
  {| endpoint := "http://test-overpass-api"; format := json; timeout := 60;
     maxRetries := retries |}.

(** A client that has just been created, one second after the origin of
    the clock. *)
Definition fresh : State :=
  {| lruCache := LRUCache.default; now := 1000%Q; posts := 0; draws := 0;
     trace := [] |}.

Definition entry : LRUCache.Entry :=
  {| LRUCache.key := "node-123"; LRUCache.value := payload;
     LRUCache.start := 500%Q |}.

(** The same client with [payload] cached under [node-123]. *)
Definition warm : State :=
  {| lruCache := LRUCache.withEntries LRUCache.default [entry];
     now := 1000%Q; posts := 0; draws := 0; trace := [] |}.

(** The state [st] when the clock shows [t]. *)
Definition at_time (t : Q) (st : State) : State :=
  {| lruCache := lruCache st; now := t; posts := posts st; draws := draws st;
     trace := trace st |}.

Definition httpDate : string := "Wed, 21 Oct 2015 07:28:00 GMT".

(** Transports: one that always answers 503, one that always answers the
    400 above, one that always answers [payload], and some that fail
    first and answer [payload] afterwards. *)
Definition unavailable : World := world [] (failed serviceUnavailable).
Definition rejecting : World := world [] (failed badRequestResponse).
Definition healthy : World := world [] (Resolved payload).
Definition recovering : World :=
  world [failed serviceUnavailable] (Resolved payload).
Definition recoveringTwice : World :=
  world [failed (response 500 "" None ""); failed (response 500 "" None "")]
    (Resolved payload).
Definition throttled : World := world [failed (rateLimited "1")] (Resolved payload).
Definition bare429 : AxiosResponse := response 429 "Too Many Requests" None "".
Definition throttledBare : World := world [failed bare429] (Resolved payload).
Definition throttledUntilDate : World :=
  world [failed (rateLimited httpDate)] (Resolved payload).

(** The message of the [OverpassError] that a run ended with. *)
Definition errorMessage (n : Notification) : string :=
  match n with
  | Error (Wrapped e) => message e
  | _ => ""
  end.

Definition q : string := "node(123); out;".
Definition key : string := "node-123".

(** Coordinates are printed as integers in the samples, which is what
    JavaScript does for the integral ones used there. *)
Definition printIntegral (x : Q) : string := JS.toString (Qnum x / Zpos (Qden x)).

Definition cafes : list (string * list string) :=
  [("amenity", ["cafe"; "restaurant"]); ("tourism", ["museum"])].

Definition paris : Q * Q * Q * Q := (48%Q, 2%Q, 49%Q, 3%Q).

(** The answer with an empty body, which axios hands over as the empty
    string; a transport that always gives it; a client that has cached it
    under [node-123] half a second ago. *)
Definition emptyBody : ResponseData := Text "".
Definition silent : World := world [] (Resolved emptyBody).
Definition hollowEntry : LRUCache.Entry :=
  {| LRUCache.key := "node-123"; LRUCache.value := emptyBody;
     LRUCache.start := 500%Q |}.
Definition hollow : State :=
  {| lruCache := LRUCache.withEntries LRUCache.default [hollowEntry];
     now := 1000%Q; posts := 0; draws := 0; trace := [] |}.

(** The same client five minutes and one second after [warm]. *)
Definition expired : State :=
  {| lruCache := LRUCache.withEntries LRUCache.default [entry];
     now := 301001%Q; posts := 0; draws := 0; trace := [] |}.

End Sample.
(* ================================================================== *)
(** * Facts about the cache *)
(* ================================================================== *)

Module LRUFacts.
Import LRUCache.

Lemma find_remove_same (k : string) (es : list Entry) :
  find (hasKey k) (remove k es) = None.
Proof.
  induction es as [|e es IH]; simpl; [reflexivity|].
  destruct (hasKey k e) eqn:E; simpl; [exact IH|].
  now rewrite E.
Qed.

Lemma hasKey_other (k k' : string) (e : Entry) :
  k' <> k -> hasKey k e = true -> hasKey k' e = false.
Proof.
  unfold hasKey. intros Hne H. apply String.eqb_eq in H.
  apply String.eqb_neq. congruence.
Qed.

Lemma find_remove_other (k k' : string) (es : list Entry) :
  k' <> k -> find (hasKey k') (remove k es) = find (hasKey k') es.
Proof.
  intros Hne. induction es as [|e es IH]; simpl; [reflexivity|].
  destruct (hasKey k e) eqn:E; simpl.
  - rewrite (hasKey_other e Hne E). exact IH.
  - destruct (hasKey k' e); [reflexivity | exact IH].
Qed.

Lemma peek_delete_same (k : string) (c : t) : peek k (delete k c) = None.
Proof. apply find_remove_same. Qed.

Lemma peek_delete_other (k k' : string) (c : t) :
  k' <> k -> peek k' (delete k c) = peek k' c.
Proof. intros H. now apply find_remove_other. Qed.

Lemma hasKey_refl (k : string) (v : ResponseData) (s : Q) :
  hasKey k {| key := k; value := v; start := s |} = true.
Proof. unfold hasKey. simpl. apply String.eqb_refl. Qed.

Lemma peek_set_same (now : Q) (k : string) (v : ResponseData) (c : t) :
  peek k (set now k v c) = Some {| key := k; value := v; start := now |}.
Proof.
  unfold set, peek.
  destruct (find (hasKey k) (entries c));
    [|destruct (negb _ && _)];
    simpl; unfold hasKey; simpl; now rewrite String.eqb_refl.
Qed.

Lemma peek_hasKey (k : string) (c : t) (e : Entry) :
  peek k c = Some e -> key e = k.
Proof.
  unfold peek. intros H. apply find_some in H. destruct H as [_ H].
  now apply String.eqb_eq in H.
Qed.

Lemma get_fresh (now : Q) (k : string) (c : t) (e : Entry) :
  peek k c = Some e -> isStale c now e = false ->
  get now k c = (Some (value e), withEntries c (e :: remove k (entries c))).
Proof. unfold get. intros -> ->. reflexivity. Qed.

Lemma get_hit_peek (now : Q) (k : string) (c c' : t) (v : ResponseData) :
  get now k c = (Some v, c') ->
  exists e, peek k c' = Some e /\ value e = v /\ peek k c = Some e
            /\ isStale c now e = false /\ ttl c' = ttl c.
Proof.
  unfold get. destruct (peek k c) as [e|] eqn:P; [|discriminate].
  destruct (isStale c now e) eqn:S; [discriminate|].
  intros H. injection H as <- <-. exists e. repeat split; auto.
  unfold peek. simpl. unfold hasKey at 1. rewrite (peek_hasKey _ _ P).
  now rewrite String.eqb_refl.
Qed.

Lemma get_miss_peek (now : Q) (k : string) (c c' : t) :
  get now k c = (None, c') -> peek k c' = None.
Proof.
  unfold get. destruct (peek k c) as [e|] eqn:P.
  - destruct (isStale c now e); [|discriminate].
    intros H. injection H as <-. apply peek_delete_same.
  - intros H. injection H as <-. exact P.
Qed.

Lemma size_clear (c : t) : size (clear c) = 0%nat.
Proof. reflexivity. Qed.

End LRUFacts.

(* ================================================================== *)
(** * Facts about strings *)
(* ================================================================== *)

Lemma append_assoc (a b c : string) : (a ++ b) ++ c = a ++ (b ++ c).
Proof. induction a as [|x a IH]; simpl; [reflexivity | now rewrite IH]. Qed.

Lemma append_nil_r (a : string) : a ++ "" = a.
Proof. induction a as [|x a IH]; simpl; [reflexivity | now rewrite IH]. Qed.

Lemma append_cancel (p a b : string) : p ++ a = p ++ b -> a = b.
Proof.
  induction p as [|c p IH]; simpl; [auto|].
  intros H. injection H as H. auto.
Qed.


(* ================================================================== *)
(** * Facts about [parseInt] *)
(* ================================================================== *)

(** A decimal numeral, as the standard library reads it, is read by
    [parseInt] as the number it denotes. *)
Lemma digits_cons (acc : Z) (a : ascii) (s : string) :
  JS.digits acc (String a s)
  = match JS.digit a with
    | Some d => JS.digits (10 * acc + d) s
    | None => acc
    end.
Proof. reflexivity. Qed.

Lemma digits_numeral (s : string) :
  forall (u : Decimal.uint),
    NilEmpty.uint_of_string s = Some u ->
    (forall p, JS.digits (Zpos p) s = Zpos (Pos.of_uint_acc u p))
    /\ JS.digits 0 s = Z.of_N (Pos.of_uint u).
Proof.
  induction s as [|a s IH]; intros u H.
  - injection H as <-. now split.
  - cbn [NilEmpty.uint_of_string] in H.
    destruct (NilEmpty.uint_of_string s) as [u'|];
      [|discriminate].
    destruct (IH u' eq_refl) as [IHp IH0].
    destruct a as [[|] [|] [|] [|] [|] [|] [|] [|]]; try discriminate H;
      injection H as <-;
      (split; [intros p; rewrite digits_cons|rewrite digits_cons]);
      match goal with
      | |- context [JS.digit ?c] =>
          let d := eval vm_compute in (JS.digit c) in
          change (JS.digit c) with d
      end; cbn [Pos.of_uint Pos.of_uint_acc].
    all: try (rewrite <- IHp; f_equal; lia).
    all: try exact IH0.
    all: cbn [Z.of_N]; rewrite <- IHp; reflexivity.
Qed.

Lemma numeral_head (s : string) (u : Decimal.uint) :
  NilZero.uint_of_string s = Some u ->
  exists c s', s = String c s' /\ JS.digit c <> None
               /\ NilEmpty.uint_of_string s = Some u.
Proof.
  unfold NilZero.uint_of_string. destruct s as [|c s']; [discriminate|].
  intros H. exists c, s'. split; [reflexivity|]. split; [|exact H].
  simpl in H. destruct (NilEmpty.uint_of_string s'); [|discriminate].
  destruct c as [[|] [|] [|] [|] [|] [|] [|] [|]]; simpl in H;
    try discriminate; vm_compute; discriminate.
Qed.

Lemma parseInt_numeral (s : string) (u : Decimal.uint) :
  NilZero.uint_of_string s = Some u ->
  JS.parseInt s = Some (Z.of_uint u).
Proof.
  intros H. destruct (numeral_head _ H) as (c & s' & -> & Hd & Hu).
  destruct (digits_numeral _ Hu) as [_ H0].
  unfold Z.of_uint. rewrite <- H0.
  destruct c as [[|] [|] [|] [|] [|] [|] [|] [|]];
    try (exfalso; apply Hd; reflexivity); reflexivity.
Qed.


(* ================================================================== *)
(** * Facts about [matchAll] and the decoding of quotes *)
(* ================================================================== *)




Lemma allChars_app (p : ascii -> bool) (a b : string) :
  allChars p (a ++ b) = allChars p a && allChars p b.
Proof.
  induction a as [|x a IH]; simpl; [reflexivity|].
  now rewrite IH, andb_assoc.
Qed.







(** ** The scan of [exec] *)



(** ** No match begins inside a match *)









(** ** Decoding the quotes *)








(* ================================================================== *)
(** * One step of the pipeline *)
(* ================================================================== *)

Section Steps.

Variable w : World.
Variable this : OverpassClient.
Variables q cachedKey : string.

Lemma source_rejected (st : State) (err : Failure) :
  responses w (posts st) = Rejected err ->
  source w this q cachedKey st = (Rejected err, posted w this q st).
Proof. unfold source, bind, posted. simpl. now intros ->. Qed.

Lemma source_resolved (st : State) (v : ResponseData) :
  responses w (posts st) = Resolved v ->
  source w this q cachedKey st = (Resolved v, cached cachedKey v (posted w this q st)).
Proof. unfold source, bind, posted, cached. simpl. now intros ->. Qed.

Lemma notify_eq (n : Notification) (st : State) :
  notify n st = (n, notified n st).
Proof. reflexivity. Qed.

Lemma step_next (fuel : nat) (count soFar : Z) (d : Failure -> Z -> M Notifier)
    (st : State) (v : ResponseData) :
  responses w (posts st) = Resolved v ->
  subscribeForRetry (S fuel) count d (source w this q cachedKey) soFar st
  = (Next v, notified (Next v) (cached cachedKey v (posted w this q st))).
Proof.
  intros H. simpl. unfold bind at 1. now rewrite (source_resolved _ H).
Qed.

Lemma step_throw (fuel : nat) (count soFar : Z) (d : Failure -> Z -> M Notifier)
    (st st1 : State) (err : Failure) (e : OverpassError) :
  responses w (posts st) = Rejected err ->
  soFar < count ->
  d err (soFar + 1) (posted w this q st) = (ThrowError e, st1) ->
  subscribeForRetry (S fuel) count d (source w this q cachedKey) soFar st
  = (Error (Wrapped e), notified (Error (Wrapped e)) st1).
Proof.
  intros H Hlt Hd. simpl. unfold bind at 1. rewrite (source_rejected _ H).
  apply Z.ltb_lt in Hlt. rewrite Hlt. unfold bind at 1. now rewrite Hd.
Qed.

Lemma step_retry (fuel : nat) (count soFar : Z) (d : Failure -> Z -> M Notifier)
    (st st1 : State) (err : Failure) (due : JS.number) :
  responses w (posts st) = Rejected err ->
  soFar < count ->
  d err (soFar + 1) (posted w this q st) = (Timer due, st1) ->
  subscribeForRetry (S fuel) count d (source w this q cachedKey) soFar st
  = subscribeForRetry fuel count d (source w this q cachedKey) (soFar + 1)
      (waited due st1).
Proof.
  intros H Hlt Hd. simpl. unfold bind at 1. rewrite (source_rejected _ H).
  apply Z.ltb_lt in Hlt. rewrite Hlt. unfold bind at 1. now rewrite Hd.
Qed.

Lemma step_past (fuel : nat) (count soFar : Z) (d : Failure -> Z -> M Notifier)
    (st : State) (err : Failure) :
  responses w (posts st) = Rejected err ->
  count <= soFar ->
  subscribeForRetry (S fuel) count d (source w this q cachedKey) soFar st
  = (Error (Raw err), notified (Error (Raw err)) (posted w this q st)).
Proof.
  intros H Hge. simpl. unfold bind at 1. rewrite (source_rejected _ H).
  apply Z.ltb_ge in Hge. now rewrite Hge.
Qed.

(** ** The decisions of the [delay] callback *)

Lemma delay_exhausted (st : State) (response : option AxiosResponse) (attempt : Z) :
  maxRetries this <= attempt ->
  delay w this q cachedKey (AxiosError response) attempt st
  = (ThrowError (maxRetriesExceeded q response), invalidated cachedKey st).
Proof.
  intros H. apply Z.leb_le in H. unfold delay, bind. simpl. rewrite H.
  destruct response as [r|]; reflexivity.
Qed.

Lemma delay_fatal (st : State) (err : Failure) (attempt : Z) :
  attempt < maxRetries this ->
  fatal err = true ->
  delay w this q cachedKey err attempt st
  = (ThrowError (fatalError q err),
     {| lruCache := cacheAfterFatal cachedKey err (lruCache st);
        now := now st; posts := posts st; draws := draws st;
        trace := trace st ++ match err with
                             | AxiosError _ => [EvCacheDelete cachedKey]
                             | OtherError _ => []
                             end |}).
Proof.
  intros H F. apply Z.leb_gt in H.
  destruct err as [[r|]|d]; unfold delay, bind; simpl; rewrite ?H.
  - simpl in F. unfold isRetryableStatus, isServerUnavailable in F.
    destruct (status r =? 400) eqn:E400; [reflexivity|].
    destruct (status r =? 429); [discriminate|].
    destruct (status r =? 500); [discriminate|].
    destruct (status r =? 502); [discriminate|].
    destruct (status r =? 503); [discriminate|].
    destruct (status r =? 504); [discriminate|].
    reflexivity.
  - reflexivity.
  - unfold ret. rewrite app_nil_r. now destruct st.
Qed.

(** An error that is not an [AxiosError] skips the whole [if]: the test of
    the attempt is not reached, and the cache is not touched. *)
Lemma delay_other (st : State) (description : string) (attempt : Z) :
  delay w this q cachedKey (OtherError description) attempt st
  = (ThrowError (unknownError q), st).
Proof. reflexivity. Qed.

Lemma delay_retryAfter (st : State) (r : AxiosResponse) (attempt : Z) :
  attempt < maxRetries this ->
  isRetryableStatus (status r) = true ->
  delay w this q cachedKey (AxiosError (Some r)) attempt st
  = retryAfter w attempt
      (if status r =? 429 then retryAfterHeader r else None) (invalidated cachedKey st).
Proof.
  intros H F. apply Z.leb_gt in H. unfold delay, bind. simpl. rewrite H.
  unfold isRetryableStatus, isServerUnavailable in F.
  destruct (status r =? 400) eqn:E400.
  - apply Z.eqb_eq in E400. rewrite E400 in F. discriminate.
  - destruct (status r =? 429); [reflexivity|].
    simpl in F. now rewrite F.
Qed.

End Steps.
(* ================================================================== *)
(** * Runs of the retry loop *)
(* ================================================================== *)

Section Pipeline.

Variable w : World.
Variable this : OverpassClient.
Variables q cachedKey : string.

Local Open Scope list_scope.

Local Abbreviation body := (requestBody this q).
Local Abbreviation loop fuel soFar :=
  (subscribeForRetry fuel (maxRetries this) (delay w this q cachedKey)
     (source w this q cachedKey) soFar).

(** [retryAfter] always answers with a timer, and touches neither the cache
    nor the transport. *)
Lemma retryAfter_timer (attempt : Z) (ms : option JS.number) (st : State) :
  exists due wn st1,
    retryAfter w attempt ms st = (Timer due, st1)
    /\ lruCache st1 = lruCache st /\ posts st1 = posts st
    /\ trace st1 = trace st ++ [EvWarn wn].
Proof.
  destruct ms as [ms|]; unfold retryAfter, bind; simpl;
    do 3 eexists; (split; [reflexivity|]); simpl; auto.
Qed.

Lemma extends_refl (st : State) : extends this q st st [].
Proof.
  unfold extends. rewrite app_nil_r. simpl. repeat split; auto with arith.
  intros b [].
Qed.

Lemma invocations_app (xs ys : list Event) :
  invocations (xs ++ ys) = (invocations xs + invocations ys)%nat.
Proof. unfold invocations. now rewrite filter_app, length_app. Qed.

Lemma extends_trans (st1 st2 st3 : State) (xs ys : list Event) :
  extends this q st1 st2 xs -> extends this q st2 st3 ys ->
  extends this q st1 st3 (xs ++ ys).
Proof.
  intros (T1 & P1 & B1) (T2 & P2 & B2). repeat split.
  - now rewrite T2, T1, app_assoc.
  - rewrite P2, P1, invocations_app. lia.
  - intros b H. apply in_app_or in H. destruct H; auto.
Qed.

Lemma invocations_quiet (evs : list Event) :
  forallb (fun e => negb (isPost e)) evs = true -> invocations evs = 0%nat.
Proof.
  unfold invocations. induction evs as [|e evs IH]; [reflexivity|].
  simpl. intros Q. apply andb_prop in Q. destruct Q as [Q1 Q2].
  destruct (isPost e); [discriminate|]. auto.
Qed.

Lemma extends_quiet (st st' : State) (evs : list Event) :
  trace st' = trace st ++ evs -> posts st' = posts st ->
  forallb (fun e => negb (isPost e)) evs = true ->
  extends this q st st' evs.
Proof.
  intros T P Q. split; [exact T|]. split.
  - rewrite P, (invocations_quiet _ Q). lia.
  - intros b H. rewrite forallb_forall in Q. apply Q in H. discriminate.
Qed.

Lemma extends_posted (st : State) :
  extends this q st (posted w this q st) [EvPost body].
Proof.
  unfold extends, posted. simpl. split; [reflexivity|]. split.
  - unfold invocations. simpl. lia.
  - intros b [H|[]]. congruence.
Qed.

Lemma extends_source (st st' : State) (o : Outcome) :
  source w this q cachedKey st = (o, st') ->
  exists evs, extends this q st st' evs /\ invocations evs = 1%nat.
Proof.
  unfold source, bind. simpl.
  destruct (responses w (posts st)); intros H; injection H as <- <-.
  - exists ([EvPost body] ++ [EvCacheSet cachedKey payload]). split; [|reflexivity].
    eapply extends_trans; [apply extends_posted|].
    apply extends_quiet; reflexivity.
  - exists [EvPost body]. split; [apply extends_posted | reflexivity].
Qed.

Lemma extends_delay (st st' : State) (err : Failure) (attempt : Z)
    (n : Notifier) :
  delay w this q cachedKey err attempt st = (n, st') ->
  exists evs, extends this q st st' evs /\ invocations evs = 0%nat.
Proof.
  assert (quiet : forall evs,
             trace st' = trace st ++ evs -> posts st' = posts st ->
             forallb (fun e => negb (isPost e)) evs = true ->
             exists evs, extends this q st st' evs /\ invocations evs = 0%nat).
  { intros evs T P Q. exists evs. split; [now apply extends_quiet|].
    now apply invocations_quiet. }
  unfold delay, retryAfter, bind.
  destruct err as [response|d]; simpl.
  - destruct (maxRetries this <=? attempt).
    + intros H; injection H as <- <-.
      now apply (quiet [EvCacheDelete cachedKey]).
    + destruct response as [r|].
      * destruct (status r =? 400);
          [|destruct (status r =? 429);
            [destruct (retryAfterHeader r)|destruct (_ || _)]];
          simpl; intros H; injection H as <- <-.
        -- now apply (quiet [EvCacheDelete cachedKey]).
        -- eapply (quiet [EvCacheDelete cachedKey; EvWarn _]); simpl;
             rewrite <- ?app_assoc; reflexivity.
        -- eapply (quiet [EvCacheDelete cachedKey; EvWarn _]); simpl;
             rewrite <- ?app_assoc; reflexivity.
        -- eapply (quiet [EvCacheDelete cachedKey; EvWarn _]); simpl;
             rewrite <- ?app_assoc; reflexivity.
        -- now apply (quiet [EvCacheDelete cachedKey]).
      * intros H; injection H as <- <-.
        now apply (quiet [EvCacheDelete cachedKey]).
  - intros H; injection H as <- <-. apply (quiet []); simpl; auto.
    now rewrite app_nil_r.
Qed.

Lemma extends_notified (st : State) (n : Notification) :
  extends this q st (notified n st) [EvNotify n].
Proof. apply extends_quiet; reflexivity. Qed.

Lemma extends_waited (st : State) (due : JS.number) :
  extends this q st (waited due st) [EvWait due].
Proof. apply extends_quiet; reflexivity. Qed.

Lemma extends_loop (fuel : nat) :
  forall (soFar : Z) (st st' : State) (n : Notification),
    loop fuel soFar st = (n, st') ->
    exists evs, extends this q st st' evs.
Proof.
  induction fuel as [|fuel IH]; intros soFar st st' n; simpl.
  - intros H; injection H as <- <-. exists []. apply extends_refl.
  - unfold bind at 1.
    destruct (source w this q cachedKey st) as [o st1] eqn:S.
    destruct (extends_source _ S) as (e1 & X1 & _).
    destruct o as [v|err].
    + rewrite notify_eq. intros H; injection H as <- <-.
      eexists. eapply extends_trans; [exact X1 | apply extends_notified].
    + destruct (soFar <? maxRetries this).
      * unfold bind at 1.
        destruct (delay w this q cachedKey err (soFar + 1) st1) as [nt st2] eqn:D.
        destruct (extends_delay _ _ _ D) as (e2 & X2 & _).
        destruct nt as [e|due].
        -- rewrite notify_eq. intros H; injection H as <- <-.
           eexists. eapply extends_trans; [exact X1|].
           eapply extends_trans; [exact X2 | apply extends_notified].
        -- unfold bind at 1. simpl. intros H.
           apply IH in H. destruct H as (e3 & X3).
           eexists. eapply extends_trans; [exact X1|].
           eapply extends_trans; [exact X2|].
           eapply extends_trans; [apply (extends_waited st2 due) | exact X3].
      * rewrite notify_eq. intros H; injection H as <- <-.
        eexists. eapply extends_trans; [exact X1 | apply extends_notified].
Qed.

Lemma extends_query (st st' : State) (n : Notification) :
  query w this q cachedKey st = (n, st') ->
  exists evs, extends this q st st' evs.
Proof.
  unfold query, retry. destruct (maxRetries this <=? 0).
  - unfold bind at 1.
    destruct (source w this q cachedKey st) as [o st1] eqn:S.
    destruct (extends_source _ S) as (e1 & X1 & _).
    destruct o; rewrite notify_eq; intros H; injection H as <- <-;
      eexists; (eapply extends_trans; [exact X1 | apply extends_notified]).
  - apply extends_loop.
Qed.

(** [retry] never runs out of fuel. *)
Lemma loop_never_pending (fuel : nat) :
  forall (soFar : Z) (st : State),
    (Z.to_nat (maxRetries this - soFar) < fuel)%nat ->
    fst (loop fuel soFar st) <> Pending.
Proof.
  induction fuel as [|fuel IH]; intros soFar st Hf; [lia|].
  simpl. unfold bind at 1.
  destruct (source w this q cachedKey st) as [[v|err] st1]; [simpl; discriminate|].
  destruct (soFar <? maxRetries this) eqn:L; [|simpl; discriminate].
  unfold bind at 1.
  destruct (delay w this q cachedKey err (soFar + 1) st1) as [[e|due] st2];
    [simpl; discriminate|].
  unfold bind at 1. simpl. apply IH. apply Z.ltb_lt in L. lia.
Qed.

Lemma retry_never_pending (st : State) :
  fst (query w this q cachedKey st) <> Pending.
Proof.
  unfold query, retry. destruct (maxRetries this <=? 0).
  - unfold bind at 1.
    destruct (source w this q cachedKey st) as [[v|err] st1]; simpl; discriminate.
  - apply loop_never_pending. lia.
Qed.


(** ** Exhaustion of the retry budget *)

Lemma loop_exhausts (n : nat) :
  forall (k : nat) (soFar : Z) (st : State),
    soFar + 1 + Z.of_nat n = maxRetries this ->
    alwaysRetryable w (posts st) ->
    exists st' r,
      loop (S n + k) soFar st
      = (Error (Wrapped (maxRetriesExceeded q (Some r))), st')
      /\ responses w (posts st + n) = Rejected (AxiosError (Some r))
      /\ posts st' = (posts st + S n)%nat
      /\ LRUCache.peek cachedKey (lruCache st') = None.
Proof.
  induction n as [|n IH]; intros k soFar st HR Hall.
  - destruct (Hall (posts st) (le_n _)) as (r & Hr & _).
    exists (notified (Error (Wrapped (maxRetriesExceeded q (Some r))))
              (invalidated cachedKey (posted w this q st))), r.
    split; [|split; [|split]].
    + eapply step_throw; [exact Hr | lia | apply delay_exhausted; lia].
    + now rewrite Nat.add_0_r.
    + simpl. lia.
    + simpl. apply LRUFacts.peek_delete_same.
  - destruct (Hall (posts st) (le_n _)) as (r & Hr & Hs).
    assert (Hlt : soFar + 1 < maxRetries this) by lia.
    pose proof (@delay_retryAfter w this q cachedKey (posted w this q st) r _ Hlt Hs) as D.
    destruct (retryAfter_timer (soFar + 1)
                (if status r =? 429 then retryAfterHeader r else None)
                (invalidated cachedKey (posted w this q st)))
      as (due & wn & st1 & R1 & C1 & P1 & _).
    rewrite R1 in D.
    destruct (IH k (soFar + 1) (waited due st1)) as (st' & r' & L & Hr' & P' & C').
    + lia.
    + intros m Hm. apply Hall. simpl in Hm. rewrite P1 in Hm. simpl in Hm. lia.
    + exists st', r'. split; [|split; [|split]].
      * change (S (S n) + k)%nat with (S (S n + k)).
        erewrite step_retry; [exact L | exact Hr | lia | exact D].
      * rewrite <- Hr'. f_equal. simpl. rewrite P1. simpl. lia.
      * rewrite P'. simpl. rewrite P1. simpl. lia.
      * exact C'.
Qed.

(** With [maxRetries = R >= 1] and a transport that keeps failing with a
    retryable status, [query] sends exactly [R] requests, ends with the
    max-retries error built from the last response, and leaves no entry
    under the cache key. *)
Lemma query_exhausts (st : State) :
  1 <= maxRetries this ->
  alwaysRetryable w (posts st) ->
  exists st' r evs,
    query w this q cachedKey st
    = (Error (Wrapped (maxRetriesExceeded q (Some r))), st')
    /\ trace st' = trace st ++ evs
    /\ invocations evs = Z.to_nat (maxRetries this)
    /\ (invocations evs <= Z.to_nat (maxRetries this) + 1)%nat
    /\ LRUCache.peek cachedKey (lruCache st') = None.
Proof.
  intros HR Hall.
  destruct (@loop_exhausts (Z.to_nat (maxRetries this) - 1) 1 0 st)
    as (st' & r & L & _ & P & C); [lia | exact Hall |].
  assert (Q : query w this q cachedKey st
              = (Error (Wrapped (maxRetriesExceeded q (Some r))), st')).
  { unfold query, retry. destruct (maxRetries this <=? 0) eqn:E.
    - apply Z.leb_le in E. lia.
    - rewrite <- L. f_equal. lia. }
  destruct (extends_query _ Q) as (evs & T & P2 & _).
  exists st', r, evs. repeat split; auto; lia.
Qed.

(** C1.  With [maxRetries = 0] the [retry] operator is the identity: the
    [delay] callback is never called, so a failing request is sent once and
    its error reaches the subscriber as it is, not as the max-retries
    error, and the cache is left as it was. *)
Theorem zero_retries_surface_raw_error (st : State) (err : Failure) :
  maxRetries this = 0 ->
  responses w (posts st) = Rejected err ->
  retryable err = true ->
  exists st',
    query w this q cachedKey st = (Error (Raw err), st')
    /\ (forall r, Error (Raw err) <> Error (Wrapped (maxRetriesExceeded q r)))
    /\ trace st' = trace st ++ [EvPost body; EvNotify (Error (Raw err))]
    /\ posts st' = S (posts st)
    /\ lruCache st' = lruCache st.
Proof.
  intros HR Hr _. exists (notified (Error (Raw err)) (posted w this q st)).
  split; [|split; [discriminate|split; [|split]]].
  - unfold query, retry. rewrite HR. simpl. unfold bind at 1.
    now erewrite source_rejected by exact Hr.
  - simpl. now rewrite <- app_assoc.
  - reflexivity.
  - reflexivity.
Qed.

(** ** Fatal failures *)

(** C2, as amended.  A failed attempt that is classified as fatal ends the
    request at once: no wait is scheduled and no further request is sent,
    whatever the budget.  While the budget lasts ([soFar < maxRetries],
    which on a client with [maxRetries >= 1] is every attempt there is):
    when the failure comes from the transport (a 400, a status outside the
    table, no response), the callback has first deleted the entry of the
    cache key, and left every other entry alone; when it does not, the
    cache is as it was.  The error is the one of the kind of the failure;
    on the attempt that reaches [maxRetries] a failure of the transport is
    reported as the max-retries error instead.  (Past the budget, and on a
    client without one, the error of the source is passed along as it is
    and the cache is as it was.) *)
Theorem fatal_terminates_and_invalidates
    (fuel : nat) (soFar : Z) (st : State) (err : Failure) :
  responses w (posts st) = Rejected err ->
  fatal err = true ->
  (exists e st' evs,
      loop (S fuel) soFar st = (Error e, st')
      /\ posts st' = S (posts st)
      /\ trace st' = trace st ++ evs
      /\ existsb isWait evs = false
      /\ invocations evs = 1%nat
      /\ (soFar < maxRetries this ->
          evs = [EvPost body]
                  ++ match err with
                     | AxiosError _ => [EvCacheDelete cachedKey]
                     | OtherError _ => []
                     end
                  ++ [EvNotify (Error e)]
          /\ lruCache st' = cacheAfterFatal cachedKey err (lruCache st)
          /\ (forall k, k <> cachedKey ->
                LRUCache.peek k (lruCache st') = LRUCache.peek k (lruCache st))
          /\ match err with
             | AxiosError _ => LRUCache.peek cachedKey (lruCache st') = None
             | OtherError _ => lruCache st' = lruCache st
             end)
      /\ (soFar + 1 < maxRetries this -> e = Wrapped (fatalError q err))
      /\ (soFar < maxRetries this <= soFar + 1 ->
          e = Wrapped match err with
                      | AxiosError response => maxRetriesExceeded q response
                      | OtherError _ => unknownError q
                      end)
      /\ (maxRetries this <= soFar ->
          e = Raw err /\ lruCache st' = lruCache st))
  /\ (maxRetries this <= 0 ->
      exists st',
        query w this q cachedKey st = (Error (Raw err), st')
        /\ posts st' = S (posts st)
        /\ trace st' = trace st ++ [EvPost body; EvNotify (Error (Raw err))]
        /\ lruCache st' = lruCache st).
Proof.
  intros Hr F.
  assert (Frame : forall k, k <> cachedKey ->
            LRUCache.peek k (cacheAfterFatal cachedKey err (lruCache st))
            = LRUCache.peek k (lruCache st)).
  { intros k Hk. destruct err; simpl; [|reflexivity].
    now apply LRUFacts.peek_delete_other. }
  assert (Gone : match err with
                 | AxiosError _ =>
                     LRUCache.peek cachedKey
                       (cacheAfterFatal cachedKey err (lruCache st)) = None
                 | OtherError _ =>
                     cacheAfterFatal cachedKey err (lruCache st) = lruCache st
                 end).
  { destruct err; simpl; [|reflexivity]. apply LRUFacts.peek_delete_same. }
  split.
  - destruct (Z_lt_le_dec soFar (maxRetries this)) as [Hlt|Hge].
    + destruct (Z_lt_le_dec (soFar + 1) (maxRetries this)) as [Hlt'|Hge'].
      * do 3 eexists. split.
        -- eapply step_throw; [exact Hr | lia | now apply delay_fatal].
        -- simpl. split; [reflexivity|]. split; [now rewrite <- !app_assoc|].
           split; [now destruct err|]. split; [now destruct err|].
           split; [|split; [reflexivity|split; lia]].
           intros _. split; [reflexivity|]. split; [reflexivity|].
           split; [exact Frame | exact Gone].
      * destruct err as [response|description].
        -- do 3 eexists. split.
           ++ eapply step_throw; [exact Hr | lia | apply delay_exhausted; lia].
           ++ simpl. split; [reflexivity|]. split; [now rewrite <- !app_assoc|].
              split; [reflexivity|]. split; [reflexivity|].
              split; [|split; [lia|split; [reflexivity|lia]]].
              intros _. split; [reflexivity|]. split; [reflexivity|].
              split; [exact Frame | exact Gone].
        -- do 3 eexists. split.
           ++ eapply step_throw; [exact Hr | lia | apply delay_other].
           ++ simpl. split; [reflexivity|]. split; [now rewrite <- !app_assoc|].
              split; [reflexivity|]. split; [reflexivity|].
              split; [|split; [lia|split; [reflexivity|lia]]].
              intros _. split; [reflexivity|]. split; [reflexivity|].
              split; [exact Frame | exact Gone].
    + do 3 eexists. split.
      * eapply step_past; [exact Hr | lia].
      * simpl. split; [reflexivity|]. split; [now rewrite <- !app_assoc|].
        split; [reflexivity|]. split; [reflexivity|].
        split; [lia|]. split; [lia|]. split; [lia|].
        intros _. split; reflexivity.
  - intros H0. apply Z.leb_le in H0. eexists. split.
    + unfold query, retry. rewrite H0. unfold bind at 1.
      erewrite source_rejected by exact Hr. apply notify_eq.
    + simpl. split; [reflexivity|]. split; [now rewrite <- !app_assoc|].
      reflexivity.
Qed.

(** C7, as amended.  An attempt answered by a 400 is never followed by a
    retry: the request ends with that attempt, whatever the budget.  On a
    client with [maxRetries >= 1] the error is the bad-request error, with
    the details of the body, when the number of the failed attempt is
    below [maxRetries], and the max-retries error when it has reached
    [maxRetries].  (Past the budget, and on a client without one, where
    there is no loop, the error of the source is passed along as it is.) *)
Theorem bad_request_never_retried
    (fuel : nat) (soFar : Z) (st : State) (r : AxiosResponse) :
  responses w (posts st) = Rejected (AxiosError (Some r)) ->
  status r = 400 ->
  (exists e st' evs,
      loop (S fuel) soFar st = (Error e, st')
      /\ posts st' = S (posts st)
      /\ trace st' = trace st ++ evs
      /\ existsb isWait evs = false
      /\ invocations evs = 1%nat
      /\ (soFar + 1 < maxRetries this -> e = Wrapped (badRequest q (data r)))
      /\ (soFar < maxRetries this <= soFar + 1 ->
          e = Wrapped (maxRetriesExceeded q (Some r)))
      /\ (maxRetries this <= soFar -> e = Raw (AxiosError (Some r))))
  /\ (maxRetries this <= 0 ->
      exists st' evs,
        query w this q cachedKey st = (Error (Raw (AxiosError (Some r))), st')
        /\ posts st' = S (posts st)
        /\ trace st' = trace st ++ evs
        /\ existsb isWait evs = false
        /\ invocations evs = 1%nat).
Proof.
  intros Hr H400.
  assert (F : fatal (AxiosError (Some r)) = true) by (simpl; now rewrite H400).
  split.
  - destruct (Z_lt_le_dec soFar (maxRetries this)) as [Hlt|Hge].
    + destruct (Z_lt_le_dec (soFar + 1) (maxRetries this)) as [Hlt'|Hge'].
      * do 3 eexists. split.
        -- eapply step_throw; [exact Hr | lia | now apply delay_fatal].
        -- simpl. split; [reflexivity|]. split; [now rewrite <- !app_assoc|].
           split; [reflexivity|]. split; [reflexivity|].
           split; [|split; lia].
           intros _. now rewrite H400.
      * do 3 eexists. split.
        -- eapply step_throw; [exact Hr | lia | apply delay_exhausted; lia].
        -- simpl. split; [reflexivity|]. split; [now rewrite <- !app_assoc|].
           split; [reflexivity|]. split; [reflexivity|].
           split; [lia|]. split; [reflexivity|lia].
    + do 3 eexists. split.
      * eapply step_past; [exact Hr | lia].
      * simpl. split; [reflexivity|]. split; [now rewrite <- !app_assoc|].
        split; [reflexivity|]. split; [reflexivity|].
        split; [lia|]. split; [lia|reflexivity].
  - intros H0. apply Z.leb_le in H0. do 2 eexists. split.
    + unfold query, retry. rewrite H0. unfold bind at 1.
      erewrite source_rejected by exact Hr. apply notify_eq.
    + simpl. split; [reflexivity|]. split; [now rewrite <- !app_assoc|].
      split; reflexivity.
Qed.

(** ** The wait before a retry *)

Lemma computedBackoff_retryable (r : AxiosResponse) :
  computedBackoff r = true ->
  isRetryableStatus (status r) = true
  /\ (if status r =? 429 then retryAfterHeader r else None) = None.
Proof.
  unfold computedBackoff, isRetryableStatus, retryAfterHeader.
  destruct (isServerUnavailable (status r)) eqn:E; simpl.
  - intros _. split; [apply orb_true_r|].
    destruct (status r =? 429) eqn:E'; [|reflexivity].
    apply Z.eqb_eq in E'. rewrite E' in E. discriminate.
  - destruct (status r =? 429); simpl; [|discriminate].
    destruct (header "retry-after" r) as [[|c h]|]; intros H;
      (discriminate || now split).
Qed.

Lemma jitter_range (u : Q) (attempt : Z) :
  0 <= attempt ->
  (0 <= u)%Q -> (u < 1)%Q ->
  (0 <= u * inject_Z (2 ^ attempt * 1000))%Q
  /\ (u * inject_Z (2 ^ attempt * 1000) < inject_Z (2 ^ attempt * 1000))%Q.
Proof.
  intros Ha H0 H1.
  assert (B : (0 < inject_Z (2 ^ attempt * 1000))%Q).
  { change 0%Q with (inject_Z 0). rewrite <- Zlt_Qlt.
    pose proof (Z.pow_pos_nonneg 2 attempt). lia. }
  split; nra.
Qed.

(** C3, as amended.  After a failure without a retry-after delay that does
    not exhaust the budget, the loop waits for
    [Math.random() * 2^attempt * 1000] milliseconds and subscribes again,
    where [attempt] is the number of attempts failed so far, counted from
    one: the wait lies in [0, 2^attempt * 1000), that is in [0, 2000)
    before the first retry and in [0, 4000) before the second. *)
Theorem backoff_full_jitter
    (fuel : nat) (soFar : Z) (st : State) (r : AxiosResponse) :
  responses w (posts st) = Rejected (AxiosError (Some r)) ->
  computedBackoff r = true ->
  0 <= soFar ->
  soFar + 1 < maxRetries this ->
  (0 <= random w (draws st))%Q ->
  (random w (draws st) < 1)%Q ->
  exists d st1,
    loop (S fuel) soFar st = loop fuel (soFar + 1) st1
    /\ d = (random w (draws st) * inject_Z (2 ^ (soFar + 1) * 1000))%Q
    /\ (0 <= d)%Q
    /\ (d < inject_Z (2 ^ (soFar + 1) * 1000))%Q
    /\ trace st1
       = trace st ++ [EvPost body; EvCacheDelete cachedKey;
                      EvWarn (TransientError d); EvWait (JS.Num d)]
    /\ posts st1 = S (posts st).
Proof.
  intros Hr Hc H0 Hlt U0 U1.
  destruct (computedBackoff_retryable _ Hc) as [Hs Hn].
  pose proof (@delay_retryAfter w this q cachedKey (posted w this q st) r _ Hlt Hs)
    as D.
  rewrite Hn in D.
  destruct (@jitter_range (random w (draws st)) (soFar + 1)) as [J0 J1];
    [lia | exact U0 | exact U1 |].
  do 2 eexists. split.
  - eapply step_retry; [exact Hr | lia | exact D].
  - split; [reflexivity|]. split; [exact J0|]. split; [exact J1|].
    simpl. split; [|reflexivity]. now rewrite <- !app_assoc.
Qed.

(** C4, as amended.  After a 429 that does not exhaust the budget: a
    [retry-after] header holding a decimal count of seconds makes the loop
    wait exactly that count times 1000 milliseconds, without drawing a
    random number; a missing or empty header makes it wait for the
    computed backoff.  (The count is taken within the range where the
    arithmetic of JavaScript numbers is exact.) *)
Theorem rate_limit_retry_after
    (fuel : nat) (soFar : Z) (st : State) (r : AxiosResponse) :
  responses w (posts st) = Rejected (AxiosError (Some r)) ->
  status r = 429 ->
  soFar + 1 < maxRetries this ->
  (forall h u,
      header "retry-after" r = Some h ->
      NilZero.uint_of_string h = Some u ->
      Z.of_uint u * 1000 <= 2 ^ 53 ->
      exists st1,
        loop (S fuel) soFar st = loop fuel (soFar + 1) st1
        /\ trace st1
           = trace st
               ++ [EvPost body; EvCacheDelete cachedKey;
                   EvWarn (RateLimitReached
                             (JS.Num (inject_Z (Z.of_uint u * 1000))));
                   EvWait (JS.Num (inject_Z (Z.of_uint u * 1000)))]
        /\ draws st1 = draws st)
  /\ (header "retry-after" r = None
      \/ header "retry-after" r = Some ""%string ->
      exists d st1,
        loop (S fuel) soFar st = loop fuel (soFar + 1) st1
        /\ d = (random w (draws st) * inject_Z (2 ^ (soFar + 1) * 1000))%Q
        /\ trace st1
           = trace st ++ [EvPost body; EvCacheDelete cachedKey;
                          EvWarn (TransientError d); EvWait (JS.Num d)]
        /\ draws st1 = S (draws st)).
Proof.
  intros Hr H429 Hlt.
  assert (Hs : isRetryableStatus (status r) = true) by now rewrite H429.
  assert (D : delay w this q cachedKey (AxiosError (Some r)) (soFar + 1)
                 (posted w this q st)
               = retryAfter w (soFar + 1) (retryAfterHeader r)
                   (invalidated cachedKey (posted w this q st))).
  { rewrite (@delay_retryAfter w this q cachedKey _ r _ Hlt Hs).
    now rewrite H429. }
  split.
  - intros h u Hh Hu _.
    destruct (numeral_head _ Hu) as (c & h' & -> & _ & _).
    unfold retryAfterHeader in D. rewrite Hh, (parseInt_numeral _ Hu) in D.
    eexists. split.
    + eapply step_retry; [exact Hr | lia | exact D].
    + simpl. split; [|reflexivity]. now rewrite <- !app_assoc.
  - intros Hh.
    assert (Hn : retryAfterHeader r = None).
    { unfold retryAfterHeader. now destruct Hh as [-> | ->]. }
    rewrite Hn in D.
    do 2 eexists. split.
    + eapply step_retry; [exact Hr | lia | exact D].
    + split; [reflexivity|]. simpl. split; [|reflexivity].
      now rewrite <- !app_assoc.
Qed.


(** ** Successful responses *)

Lemma loop_next (fuel : nat) :
  forall (soFar : Z) (st st' : State) (v : ResponseData),
    loop fuel soFar st = (Next v, st') ->
    exists pre,
      trace st'
      = trace st ++ pre ++ [EvPost body; EvCacheSet cachedKey v; EvNotify (Next v)]
      /\ LRUCache.peek cachedKey (lruCache st')
         = Some {| LRUCache.key := cachedKey; LRUCache.value := v;
                   LRUCache.start := now st' |}
      /\ responses w (pred (posts st')) = Resolved v.
Proof.
  induction fuel as [|fuel IH]; intros soFar st st' v; [discriminate|].
  destruct (responses w (posts st)) as [v0|err] eqn:Hr.
  - erewrite step_next by exact Hr. intros H. injection H as <- <-.
    exists []. simpl. split; [now rewrite <- !app_assoc|].
    split; [apply LRUFacts.peek_set_same | exact Hr].
  - destruct (Z_lt_le_dec soFar (maxRetries this)) as [Hlt|Hge].
    + destruct (delay w this q cachedKey err (soFar + 1) (posted w this q st))
        as [[e|due] st1] eqn:D.
      * erewrite step_throw by (try exact Hr; try exact D; lia). discriminate.
      * erewrite step_retry by (try exact Hr; try exact D; lia).
        intros H. apply IH in H. destruct H as (pre & T & C & R).
        destruct (extends_delay _ _ _ D) as (evs & (T1 & _) & _).
        exists ([EvPost body] ++ evs ++ [EvWait due] ++ pre).
        split; [|split; assumption].
        rewrite T. simpl. rewrite T1. simpl. now rewrite <- !app_assoc.
    + erewrite step_past by (try exact Hr; lia). discriminate.
Qed.

Lemma query_next (st st' : State) (v : ResponseData) :
  query w this q cachedKey st = (Next v, st') ->
  exists pre,
    trace st'
    = trace st ++ pre ++ [EvPost body; EvCacheSet cachedKey v; EvNotify (Next v)]
    /\ LRUCache.peek cachedKey (lruCache st')
       = Some {| LRUCache.key := cachedKey; LRUCache.value := v;
                 LRUCache.start := now st' |}
    /\ responses w (pred (posts st')) = Resolved v.
Proof.
  unfold query, retry. destruct (maxRetries this <=? 0); [|apply loop_next].
  unfold bind at 1.
  destruct (responses w (posts st)) as [v0|err] eqn:Hr.
  - erewrite source_resolved by exact Hr. rewrite notify_eq.
    intros H. injection H as <- <-.
    exists []. simpl. split; [now rewrite <- !app_assoc|].
    split; [apply LRUFacts.peek_set_same | exact Hr].
  - erewrite source_rejected by exact Hr. discriminate.
Qed.

(** The requests of a run: all but the last one fail, and the last one
    decides how the run ends. *)
Lemma loop_responses (fuel : nat) :
  forall (soFar : Z) (st st' : State) (res : Notification),
    loop fuel soFar st = (res, st') ->
    res <> Pending ->
    (posts st < posts st')%nat
    /\ (forall n, (posts st <= n < pred (posts st'))%nat ->
                  exists err, responses w n = Rejected err)
    /\ endsWith (responses w (pred (posts st'))) res.
Proof.
  induction fuel as [|fuel IH]; intros soFar st st' res.
  - intros H N. injection H as <- _. congruence.
  - destruct (responses w (posts st)) as [v0|err] eqn:Hr.
    + erewrite step_next by exact Hr. intros H _. injection H as <- <-.
      simpl. split; [lia|]. split; [intros n Hn; lia|]. now rewrite Hr.
    + destruct (Z_lt_le_dec soFar (maxRetries this)) as [Hlt|Hge].
      * destruct (delay w this q cachedKey err (soFar + 1) (posted w this q st))
          as [[e|due] st1] eqn:D;
          destruct (extends_delay _ _ _ D) as (evs & (_ & P0 & _) & I1);
          assert (P1 : posts st1 = S (posts st))
            by (rewrite P0, I1; simpl; lia).
        -- erewrite step_throw by (try exact Hr; try exact D; lia).
           intros H _. injection H as <- <-. simpl. rewrite P1. simpl.
           split; [lia|]. split; [intros n Hn; lia|].
           rewrite Hr. simpl. eauto.
        -- erewrite step_retry by (try exact Hr; try exact D; lia).
           intros H N. destruct (IH _ _ _ _ H N) as (Lt & All & Last).
           simpl in Lt, All. rewrite P1 in Lt, All.
           split; [lia|]. split; [|exact Last].
           intros n Hn. destruct (Nat.eq_dec n (posts st)) as [->|Hne].
           ++ eauto.
           ++ apply All. lia.
      * erewrite step_past by (try exact Hr; lia).
        intros H _. injection H as <- <-. simpl.
        split; [lia|]. split; [intros n Hn; lia|]. rewrite Hr. simpl. eauto.
Qed.

Lemma query_responses (st st' : State) (res : Notification) :
  query w this q cachedKey st = (res, st') ->
  (posts st < posts st')%nat
  /\ (forall n, (posts st <= n < pred (posts st'))%nat ->
                exists err, responses w n = Rejected err)
  /\ endsWith (responses w (pred (posts st'))) res.
Proof.
  intros Q. pose proof (retry_never_pending st) as N. rewrite Q in N.
  revert Q. unfold query, retry.
  destruct (maxRetries this <=? 0); [|intros Q; eapply loop_responses; eauto].
  unfold bind at 1. destruct (responses w (posts st)) as [v0|err] eqn:Hr.
  - erewrite source_resolved by exact Hr. rewrite notify_eq.
    intros H. injection H as <- <-. simpl.
    split; [lia|]. split; [intros n Hn; lia|]. now rewrite Hr.
  - erewrite source_rejected by exact Hr. rewrite notify_eq.
    intros H. injection H as <- <-. simpl.
    split; [lia|]. split; [intros n Hn; lia|]. rewrite Hr. simpl. eauto.
Qed.

(** C6.  When one of the requests sent during a run of [query] is answered
    with a payload, that request is the last one of the run, the run
    delivers the payload, and its last three events are the request, the
    write of the payload under the cache key, and the delivery, in this
    order: at the delivery the cache holds the payload under the cache
    key. *)
Theorem success_cached_before_delivery
    (st st' : State) (res : Notification) (n : nat) (v : ResponseData) :
  query w this q cachedKey st = (res, st') ->
  (posts st <= n < posts st')%nat ->
  responses w n = Resolved v ->
  res = Next v
  /\ n = pred (posts st')
  /\ exists pre,
       trace st'
       = trace st ++ pre ++ [EvPost body; EvCacheSet cachedKey v; EvNotify (Next v)]
       /\ LRUCache.peek cachedKey (lruCache st')
          = Some {| LRUCache.key := cachedKey; LRUCache.value := v;
                    LRUCache.start := now st' |}.
Proof.
  intros Q Hn Hv.
  destruct (query_responses _ Q) as (_ & All & Last).
  assert (E : n = pred (posts st')).
  { destruct (Nat.eq_dec n (pred (posts st'))) as [E|E]; [exact E|].
    destruct (All n) as (err & Herr); [lia | congruence]. }
  subst n. rewrite Hv in Last. simpl in Last. subst res.
  split; [reflexivity|]. split; [reflexivity|].
  destruct (query_next _ Q) as (pre & T & C & _). eauto.
Qed.

(** ** The outgoing query *)

(** C8.  The text sent is the body given by the caller after the preamble
    [[out:<format>]], the clause [[timeout:<seconds>]] exactly when the
    timeout of the client is not zero, and a semicolon; every request made
    for [query] carries this text, URL-encoded, in its [data] field. *)
Theorem full_query_wraps_body :
  (timeout this = 0 ->
   fullQuery this q = ("[out:" ++ formatName (format this) ++ "];" ++ q)%string)
  /\ (timeout this <> 0 ->
      fullQuery this q
      = ("[out:" ++ formatName (format this) ++ "]"
         ++ "[timeout:" ++ JS.toString (timeout this) ++ "]" ++ ";" ++ q)%string)
  /\ (forall st st' n evs b,
        query w this q cachedKey st = (n, st') ->
        trace st' = trace st ++ evs ->
        In (EvPost b) evs ->
        b = ("data=" ++ JS.encodeURIComponent (fullQuery this q))%string).
Proof.
  split; [|split].
  - intros H. unfold fullQuery. now rewrite H.
  - intros H. unfold fullQuery. apply Z.eqb_neq in H. rewrite H. simpl.
    now rewrite !append_assoc.
  - intros st st' n evs b Q T Hin.
    destruct (extends_query _ Q) as (evs' & T' & _ & B).
    rewrite T' in T. apply app_inv_head in T. subst evs'.
    now apply B.
Qed.

End Pipeline.
(* ================================================================== *)
(** * [getElement] *)
(* ================================================================== *)

Section Elements.

Local Open Scope list_scope.

Variable w : World.
Variable this : OverpassClient.

Lemma getElement_hit (type : ElementType) (id : Z) (outputFormat : string)
    (st : State) (e : LRUCache.Entry) :
  LRUCache.peek (elementKey type id) (lruCache st) = Some e ->
  LRUCache.isStale (lruCache st) (now st) e = false ->
  truthy (LRUCache.value e) = true ->
  exists st',
    getElement w this type id outputFormat st = (Next (LRUCache.value e), st')
    /\ posts st' = posts st
    /\ trace st'
       = trace st ++ [EvWait (JS.Num 200); EvNotify (Next (LRUCache.value e))].
Proof.
  intros P S V. unfold getElement, bind at 1, cacheGet.
  erewrite LRUFacts.get_fresh by eassumption. rewrite V.
  eexists. split; [reflexivity|]. simpl. split; [reflexivity|].
  now rewrite <- app_assoc.
Qed.

(** C5, as amended.  When the cache holds an entry under the key of the
    request, the entry is not older than the TTL and its value is truthy,
    as every object is, [getElement] delivers the value of the entry and
    sends no request. *)
Theorem cache_hit_skips_network (type : ElementType) (id : Z)
    (outputFormat : string) (st : State) (e : LRUCache.Entry) :
  LRUCache.peek (elementKey type id) (lruCache st) = Some e ->
  LRUCache.isStale (lruCache st) (now st) e = false ->
  truthy (LRUCache.value e) = true ->
  exists st' evs,
    getElement w this type id outputFormat st = (Next (LRUCache.value e), st')
    /\ posts st' = posts st
    /\ trace st' = trace st ++ evs
    /\ invocations evs = 0%nat.
Proof.
  intros P S V. destruct (@getElement_hit type id outputFormat _ _ P S V)
    as (st' & G & Hp & T).
  exists st'. eexists. repeat split; eauto.
Qed.

Lemma getElement_next_cached (type : ElementType) (id : Z)
    (outputFormat : string) (st st' : State) (v : ResponseData) :
  getElement w this type id outputFormat st = (Next v, st') ->
  exists e, LRUCache.peek (elementKey type id) (lruCache st') = Some e
            /\ LRUCache.value e = v.
Proof.
  unfold getElement, bind at 1, cacheGet.
  destruct (LRUCache.get (now st) (elementKey type id) (lruCache st))
    as [[v0|] c] eqn:G.
  - destruct (truthy v0).
    + unfold bind. simpl. intros H. injection H as <- <-. simpl.
      apply LRUFacts.get_hit_peek in G. destruct G as (e & P & V & _).
      exists e. now split.
    + intros H. apply query_next in H. destruct H as (pre & _ & P & _).
      eexists. split; [exact P | reflexivity].
  - intros H. apply query_next in H. destruct H as (pre & _ & P & _).
    eexists. split; [exact P | reflexivity].
Qed.


(** C10, as amended.  The cache key of [getElement] is built from the type
    and the id alone.  After a [getElement] that delivered a truthy
    payload, as every object is, a [getElement] for the same type and id
    with any output format, made while the entry is not older than the
    TTL, delivers the same payload and sends no request, although the
    query it would have sent differs when the output formats differ. *)
Theorem element_cache_ignores_output_format
    (type : ElementType) (id : Z) (f1 f2 : string)
    (st st1 st2 : State) (v : ResponseData) :
  getElement w this type id f1 st = (Next v, st1) ->
  truthy v = true ->
  lruCache st2 = lruCache st1 ->
  (forall e, LRUCache.peek (elementKey type id) (lruCache st1) = Some e ->
             LRUCache.isStale (lruCache st1) (now st2) e = false) ->
  exists st3 evs,
    getElement w this type id f2 st2 = (Next v, st3)
    /\ posts st3 = posts st2
    /\ trace st3 = trace st2 ++ evs
    /\ invocations evs = 0%nat
    /\ (f1 <> f2 -> elementQuery type id f1 <> elementQuery type id f2).
Proof.
  intros G Hv C F.
  destruct (getElement_next_cached _ _ _ _ G) as (e & P & V).
  rewrite <- C in P, F. rewrite <- V in Hv.
  destruct (@getElement_hit type id f2 _ _ P (F e P) Hv) as (st3 & G2 & Hp & T).
  rewrite V in G2, T.
  exists st3. eexists. split; [exact G2|]. split; [exact Hp|].
  split; [exact T|]. split; [reflexivity|].
  intros Hne Heq. apply Hne. unfold elementQuery in Heq.
  apply (@append_cancel (typeName type)) in Heq.
  apply (@append_cancel "(") in Heq.
  apply (@append_cancel (JS.toString id)) in Heq.
  apply (@append_cancel "); ") in Heq. exact Heq.
Qed.

End Elements.

(* ================================================================== *)
(** * The theorems at sample inputs *)
(* ================================================================== *)

Section Runs.

Import Sample.

Local Open Scope list_scope.

(** ** Counterexamples to the claims as the specification words them *)

(** C2 as worded: a fatal failure leaves the entry of the cache key in
    place.  With three retries allowed, [payload] cached under the key
    and a 400 as the first response, the entry is gone after the request. *)
Lemma fatal_failure_deletes_entry :
  ~ (forall w this q key st err,
        responses w (posts st) = Rejected err ->
        fatal err = true ->
        1 < maxRetries this ->
        forall e,
          LRUCache.peek key (lruCache st) = Some e ->
          LRUCache.peek key (lruCache (snd (query w this q key st))) = Some e).
Proof.
  intros H.
  specialize (H rejecting (client 3) q key warm
                (AxiosError (Some badRequestResponse))
                eq_refl eq_refl eq_refl entry eq_refl).
  vm_compute in H. discriminate H.
Qed.

(** C3 as worded: the wait before the first retry lies in [0, 1000) ms.
    With three retries allowed, a 503 as the first response and
    [Math.random()] returning 0.75, the wait before the first retry is
    1500 ms. *)
Lemma first_backoff_exceeds_one_second :
  ~ (forall w this q key st r v,
        responses w (posts st) = Rejected (AxiosError (Some r)) ->
        computedBackoff r = true ->
        responses w (S (posts st)) = Resolved v ->
        1 < maxRetries this ->
        (0 <= random w (draws st))%Q ->
        (random w (draws st) < 1)%Q ->
        trace st = [] ->
        forall d,
          In (EvWait (JS.Num d)) (trace (snd (query w this q key st))) ->
          (0 <= d)%Q /\ (d < 1000)%Q).
Proof.
  intros H.
  assert (U0 : (0 <= 3 # 4)%Q) by (intro C; discriminate C).
  specialize (H recovering
                (client 3) q key fresh serviceUnavailable payload
                eq_refl eq_refl eq_refl eq_refl U0 eq_refl eq_refl
                (6000 # 4)%Q).
  destruct H as [_ H].
  - vm_compute. do 3 right. left. reflexivity.
  - vm_compute in H. discriminate H.
Qed.

(** C4 as worded: a [retry-after] header that is not a count of seconds
    makes the wait the computed backoff.  With an HTTP date in the header
    the timer is given NaN, which is no value of the backoff formula,
    whatever the exponent. *)
Lemma malformed_retry_after_is_not_backoff :
  ~ (forall w this q key st r h v,
        responses w (posts st) = Rejected (AxiosError (Some r)) ->
        status r = 429 ->
        header "retry-after" r = Some h ->
        NilZero.uint_of_string h = None ->
        responses w (S (posts st)) = Resolved v ->
        1 < maxRetries this ->
        trace st = [] ->
        forall due,
          In (EvWait due) (trace (snd (query w this q key st))) ->
          exists attempt,
            due = JS.Num (random w (draws st) * inject_Z (2 ^ attempt * 1000))).
Proof.
  intros H.
  specialize (H throttledUntilDate
                (client 3) q key fresh (rateLimited httpDate) httpDate payload
                eq_refl eq_refl eq_refl eq_refl eq_refl eq_refl eq_refl JS.NaN).
  destruct H as [attempt H].
  - vm_compute. do 3 right. left. reflexivity.
  - discriminate H.
Qed.

(** C7 as worded: a 400 ends the request with the bad-request error.  With
    one retry allowed, the first failure already exhausts the budget, and
    a 400 ends the request with the max-retries error. *)
Lemma bad_request_on_last_attempt_is_exhaustion :
  ~ (forall w this q key st r,
        responses w (posts st) = Rejected (AxiosError (Some r)) ->
        status r = 400 ->
        fst (query w this q key st) = Error (Wrapped (badRequest q (data r)))).
Proof.
  intros H.
  specialize (H rejecting (client 1) q key fresh
                badRequestResponse eq_refl eq_refl).
  vm_compute in H. discriminate H.
Qed.

(** C5 as worded: an unexpired entry under the key is returned without a
    request.  With the empty string cached under the key half a second
    ago, [if (cached)] fails and a request is sent. *)
Lemma falsy_entry_is_refetched :
  ~ (forall w this type id outputFormat st e,
        LRUCache.peek (elementKey type id) (lruCache st) = Some e ->
        LRUCache.isStale (lruCache st) (now st) e = false ->
        exists st',
          getElement w this type id outputFormat st
          = (Next (LRUCache.value e), st')
          /\ posts st' = posts st).
Proof.
  intros H.
  destruct (H healthy (client 2) node 123 "out;"%string hollow hollowEntry
              eq_refl eq_refl) as (st' & G & P).
  assert (E : posts (snd (getElement healthy (client 2) node 123 "out;" hollow))
              = 1%nat) by (vm_compute; reflexivity).
  rewrite G in E. simpl in E. rewrite P in E. discriminate E.
Qed.

(** C10 as worded: after a [getElement] that succeeded and populated the
    cache, a second one within the TTL is answered from the cache.  With
    a transport that answers with an empty body, the first call delivers
    and caches the empty string, and the second call, at once and with
    another output format, sends a request of its own. *)
Lemma empty_payload_is_not_reused :
  ~ (forall w this type id f1 f2 st st1 st2 v,
        getElement w this type id f1 st = (Next v, st1) ->
        lruCache st2 = lruCache st1 ->
        (forall e, LRUCache.peek (elementKey type id) (lruCache st1) = Some e ->
                   LRUCache.isStale (lruCache st1) (now st2) e = false) ->
        exists st3,
          getElement w this type id f2 st2 = (Next v, st3)
          /\ posts st3 = posts st2).
Proof.
  intros H.
  destruct (H silent (client 2) node 123 "out;"%string "out geom;"%string fresh
              (snd (getElement silent (client 2) node 123 "out;" fresh))
              (snd (getElement silent (client 2) node 123 "out;" fresh))
              emptyBody)
    as (st3 & G & P).
  - vm_compute. reflexivity.
  - reflexivity.
  - intros e He. vm_compute in He. injection He as <-. reflexivity.
  - assert (E : posts (snd (getElement silent (client 2) node 123 "out geom;"
                              (snd (getElement silent (client 2) node 123 "out;"
                                      fresh))))
                = 2%nat) by (vm_compute; reflexivity).
    rewrite G in E. simpl in E. rewrite P in E. vm_compute in E. discriminate E.
Qed.

(** ** The theorems at work *)

(** C1 at the failing input: no retry allowed, a transport answering 503. *)
Lemma zero_retries_witness :
  maxRetries (client 0) = 0
  /\ responses unavailable (posts fresh) = failed serviceUnavailable
  /\ retryable (AxiosError (Some serviceUnavailable)) = true
  /\ fst (query unavailable (client 0) q key fresh)
     = Error (Raw (AxiosError (Some serviceUnavailable)))
  /\ invocations (trace (snd (query unavailable (client 0) q key fresh))) = 1%nat.
Proof.
  split; [reflexivity|]. split; [reflexivity|]. split; [reflexivity|].
  destruct (@zero_retries_surface_raw_error unavailable (client 0) q key fresh
              (AxiosError (Some serviceUnavailable)) eq_refl eq_refl eq_refl)
    as (st' & Q & _ & T & _).
  rewrite Q. split; [reflexivity|]. simpl. rewrite T. reflexivity.
Defined.

(** C2: three retries allowed, [payload] cached under the key, a 400. *)
Lemma fatal_witness :
  responses rejecting (posts warm) = failed badRequestResponse
  /\ fatal (AxiosError (Some badRequestResponse)) = true
  /\ 0 + 1 < maxRetries (client 3)
  /\ exists st',
       subscribeForRetry 4 3 (delay rejecting (client 3) q key)
         (source rejecting (client 3) q key) 0 warm
       = (Error (Wrapped (badRequest q badRequestBody)), st')
       /\ posts st' = 1%nat
       /\ LRUCache.peek key (lruCache st') = None.
Proof.
  split; [reflexivity|]. split; [reflexivity|]. split; [reflexivity|].
  destruct (@fatal_terminates_and_invalidates rejecting (client 3) q key 3 0 warm
              (AxiosError (Some badRequestResponse)) eq_refl eq_refl)
    as [(e & st' & evs & L & P & _ & _ & _ & A & B & _) _].
  rewrite (B eq_refl) in L. destruct (A eq_refl) as (_ & _ & _ & C).
  exists st'. split; [exact L|]. split; [exact P | exact C].
Defined.

(** C7: the same request on a client without a cached entry. *)
Lemma bad_request_witness :
  responses rejecting (posts fresh) = failed badRequestResponse
  /\ status badRequestResponse = 400
  /\ exists st',
       subscribeForRetry 4 3 (delay rejecting (client 3) q key)
         (source rejecting (client 3) q key) 0 fresh
       = (Error (Wrapped (badRequest q badRequestBody)), st')
       /\ posts st' = 1%nat.
Proof.
  split; [reflexivity|]. split; [reflexivity|].
  destruct (@bad_request_never_retried rejecting (client 3) q key 3 0 fresh
              badRequestResponse eq_refl eq_refl)
    as [(e & st' & evs & L & P & _ & _ & _ & B & _ & _) _].
  exists st'. rewrite (B eq_refl) in L. split; [exact L | exact P].
Defined.

(** C3: three retries allowed, a 503, [Math.random()] returning 0.75. *)
Lemma backoff_witness :
  responses recovering (posts fresh) = failed serviceUnavailable
  /\ computedBackoff serviceUnavailable = true
  /\ 0 <= 0
  /\ 0 + 1 < maxRetries (client 3)
  /\ (0 <= random recovering (draws fresh))%Q
  /\ (random recovering (draws fresh) < 1)%Q
  /\ exists d st1,
       subscribeForRetry 4 3 (delay recovering (client 3) q key)
         (source recovering (client 3) q key) 0 fresh
       = subscribeForRetry 3 3 (delay recovering (client 3) q key)
           (source recovering (client 3) q key) 1 st1
       /\ d = (6000 # 4)%Q
       /\ (d < inject_Z 2000)%Q.
Proof.
  assert (U0 : (0 <= random recovering (draws fresh))%Q)
    by (intro C; discriminate C).
  split; [reflexivity|]. split; [reflexivity|]. split; [discriminate|].
  split; [reflexivity|]. split; [exact U0|]. split; [reflexivity|].
  destruct (@backoff_full_jitter recovering (client 3) q key 3 0 fresh
              serviceUnavailable eq_refl eq_refl (Z.le_refl 0) eq_refl U0 eq_refl)
    as (d & st1 & L & D & _ & R & _).
  exists d, st1. split; [exact L|]. split; [exact D | exact R].
Defined.

(** C4: a 429 with [retry-after: 1], and a 429 without the header. *)
Lemma retry_after_witness :
  (responses throttled (posts fresh) = failed (rateLimited "1")
   /\ status (rateLimited "1") = 429
   /\ 0 + 1 < maxRetries (client 3)
   /\ exists st1,
        subscribeForRetry 4 3 (delay throttled (client 3) q key)
          (source throttled (client 3) q key) 0 fresh
        = subscribeForRetry 3 3 (delay throttled (client 3) q key)
            (source throttled (client 3) q key) 1 st1
        /\ nth_error (trace st1) 3 = Some (EvWait (JS.Num (inject_Z 1000)))
        /\ draws st1 = 0%nat)
  /\ (responses throttledBare (posts fresh) = failed bare429
      /\ status bare429 = 429
      /\ exists st1,
           subscribeForRetry 4 3 (delay throttledBare (client 3) q key)
             (source throttledBare (client 3) q key) 0 fresh
           = subscribeForRetry 3 3 (delay throttledBare (client 3) q key)
               (source throttledBare (client 3) q key) 1 st1
           /\ nth_error (trace st1) 3 = Some (EvWait (JS.Num (6000 # 4)))
           /\ draws st1 = 1%nat).
Proof.
  split.
  - split; [reflexivity|]. split; [reflexivity|]. split; [reflexivity|].
    destruct (@rate_limit_retry_after throttled (client 3) q key 3 0 fresh
                (rateLimited "1") eq_refl eq_refl eq_refl) as [A _].
    destruct (A "1"%string (Decimal.D1 Decimal.Nil) eq_refl eq_refl)
      as (st1 & L & T & D); [discriminate|].
    exists st1. split; [exact L|]. rewrite T. split; [reflexivity | exact D].
  - split; [reflexivity|]. split; [reflexivity|].
    destruct (@rate_limit_retry_after throttledBare (client 3) q key 3 0 fresh
                bare429 eq_refl eq_refl eq_refl) as [_ B].
    destruct (B (or_introl eq_refl)) as (d & st1 & L & -> & T & D).
    exists st1. split; [exact L|]. rewrite T. split; [reflexivity | exact D].
Defined.

(** C5: [payload] cached under [node-123] half a second ago. *)
Lemma cache_hit_witness :
  LRUCache.peek (elementKey node 123) (lruCache warm) = Some entry
  /\ LRUCache.isStale (lruCache warm) (now warm) entry = false
  /\ truthy (LRUCache.value entry) = true
  /\ exists st',
       getElement unavailable (client 2) node 123 "out;" warm = (Next payload, st')
       /\ posts st' = 0%nat.
Proof.
  split; [reflexivity|]. split; [reflexivity|]. split; [reflexivity|].
  destruct (@cache_hit_skips_network unavailable (client 2) node 123
              "out;"%string warm entry eq_refl eq_refl eq_refl)
    as (st' & evs & G & P & _).
  exists st'. split; [exact G | exact P].
Defined.

(** C6: three retries allowed, two failures with status 500, then the
    payload as the answer to the third request. *)
Lemma success_witness :
  query recoveringTwice (client 3) q key fresh
  = (Next payload, snd (query recoveringTwice (client 3) q key fresh))
  /\ (posts fresh <= 2 < posts (snd (query recoveringTwice (client 3) q key fresh)))%nat
  /\ responses recoveringTwice 2 = Resolved payload
  /\ LRUCache.peek key (lruCache (snd (query recoveringTwice (client 3) q key fresh)))
     = Some {| LRUCache.key := key; LRUCache.value := payload;
               LRUCache.start :=
                 now (snd (query recoveringTwice (client 3) q key fresh)) |}.
Proof.
  assert (Q : query recoveringTwice (client 3) q key fresh
              = (Next payload, snd (query recoveringTwice (client 3) q key fresh)))
    by (vm_compute; reflexivity).
  assert (R : (posts fresh <= 2
               < posts (snd (query recoveringTwice (client 3) q key fresh)))%nat)
    by (vm_compute; split; repeat constructor).
  split; [exact Q|]. split; [exact R|]. split; [reflexivity|].
  destruct (@success_cached_before_delivery recoveringTwice (client 3) q key fresh
              _ _ 2%nat payload Q R eq_refl) as (_ & _ & pre & _ & C).
  exact C.
Defined.

(** C10: [getElement('node', 123)] answered by the network, then
    [getElement('node', 123, 'out geom;')] one minute later. *)
Lemma output_format_witness :
  getElement healthy (client 2) node 123 "out;" fresh
  = (Next payload, snd (getElement healthy (client 2) node 123 "out;" fresh))
  /\ truthy payload = true
  /\ exists st3,
       getElement healthy (client 2) node 123 "out geom;"
         (at_time 61010 (snd (getElement healthy (client 2) node 123 "out;" fresh)))
       = (Next payload, st3)
       /\ posts st3 = 1%nat
       /\ elementQuery node 123 "out;" <> elementQuery node 123 "out geom;".
Proof.
  assert (G : getElement healthy (client 2) node 123 "out;" fresh
              = (Next payload,
                 snd (getElement healthy (client 2) node 123 "out;" fresh)))
    by (vm_compute; reflexivity).
  split; [exact G|]. split; [reflexivity|].
  destruct (@element_cache_ignores_output_format healthy (client 2) node 123
              "out;"%string "out geom;"%string fresh _
              (at_time 61010
                 (snd (getElement healthy (client 2) node 123 "out;" fresh)))
              payload G eq_refl eq_refl)
    as (st3 & evs & G2 & P & _ & _ & N).
  - intros e H. vm_compute in H. injection H as <-. reflexivity.
  - exists st3. split; [exact G2|]. split; [exact P|].
    apply N. discriminate.
Defined.

(** ** The scenarios of the test suite

    The client of the tests is [client 2]. *)

(** should handle API failure and retry *)
Example test_failure_and_retry :
  JS.includes
    (errorMessage
       (fst (getElement (world [] (failed (response 500 "" None "")))
               (client 2) node 123 "out;" fresh)))
    "Max retries exceeded" = true.
Proof. vm_compute. reflexivity. Qed.

(** should handle 400 errors with detailed error parsing *)
Example test_bad_request_details :
  let m := errorMessage (fst (getElement rejecting (client 2) node 123 "out;" fresh)) in
  JS.includes m "Bad Request Error" = true
  /\ JS.includes m ("Invalid syntax " ++ JS.dquote ++ "test" ++ JS.dquote)%string = true.
Proof. vm_compute. split; reflexivity. Qed.

(** should handle unknown HTTP status codes *)
Example test_unknown_status :
  let teapot :=
    {| status := 418; statusText := None; headers := None;
       data := "I am a teapot" |} in
  let m := errorMessage
             (fst (getElement (world [] (failed teapot)) (client 2)
                     node 123 "out;" fresh)) in
  JS.includes m "[418]" = true /\ JS.includes m "Unknown error occured" = true.
Proof. vm_compute. split; reflexivity. Qed.

(** should handle network errors without response *)
Example test_network_error :
  JS.includes
    (errorMessage
       (fst (getElement (world [] (Rejected (AxiosError None))) (client 2)
               node 123 "out;" fresh)))
    "Something went wrong" = true.
Proof. vm_compute. reflexivity. Qed.

(** should handle 503 Service Unavailable errors with retry *)
Example test_retry_then_success :
  let run := getElement recovering (client 2) node 123 "out;" fresh in
  fst run = Next payload /\ posts (snd run) = 2%nat.
Proof. vm_compute. split; reflexivity. Qed.

(** should return cached data for repeated requests *)
Example test_repeated_request :
  let first := getElement healthy (client 2) node 123 "out;" fresh in
  let second := getElement healthy (client 2) node 123 "out;" (snd first) in
  fst second = Next payload /\ posts (snd second) = posts (snd first).
Proof. vm_compute. split; reflexivity. Qed.

(** should clear cache *)
Example test_clear_cache :
  let first := getElement healthy (client 2) node 123 "out;" fresh in
  LRUCache.size (lruCache (snd (clearCache (snd first)))) = 0%nat.
Proof. vm_compute. reflexivity. Qed.

End Runs.

(* ================================================================== *)
(** * Every run of [query] *)
(* ================================================================== *)

Section EveryRun.

Variable w : World.
Variable this : OverpassClient.
Variables q cachedKey : string.

Local Open Scope list_scope.

Local Abbreviation loop fuel soFar :=
  (subscribeForRetry fuel (maxRetries this) (delay w this q cachedKey)
     (source w this q cachedKey) soFar).

Lemma newOverpassError_shape (msg : string) (errors : option (list string))
    (query : option string) :
  isOverpassError (newOverpassError msg errors query).
Proof. split; [reflexivity|]. simpl. eauto. Qed.

(** What the [delay] callback does, whatever it decides: it sends nothing,
    and it deletes the entry of the key when the error comes from axios. *)
Lemma delay_effect (err : Failure) (attempt : Z) (st st1 : State) (n : Notifier) :
  delay w this q cachedKey err attempt st = (n, st1) ->
  posts st1 = posts st
  /\ lruCache st1 = cacheAfterFatal cachedKey err (lruCache st)
  /\ match n with
     | ThrowError e => isOverpassError e
     | Timer _ => attempt < maxRetries this /\ retryable err = true
     end.
Proof.
  unfold delay, retryAfter, bind. destruct err as [response|d]; simpl.
  - destruct (maxRetries this <=? attempt) eqn:E.
    + intros H. injection H as <- <-. simpl.
      split; [reflexivity|]. split; [reflexivity|]. apply newOverpassError_shape.
    + apply Z.leb_gt in E. destruct response as [r|].
      * change ((status r =? 500) || (status r =? 502) || (status r =? 503)
                || (status r =? 504))
          with (isServerUnavailable (status r)).
        unfold isRetryableStatus.
        destruct (status r =? 400);
          [|destruct (status r =? 429);
            [destruct (retryAfterHeader r)
            |destruct (isServerUnavailable (status r))]];
          simpl; intros H; injection H as <- <-; simpl;
          (split; [reflexivity|]); (split; [reflexivity|]);
          first [apply newOverpassError_shape | now split].
      * intros H. injection H as <- <-. simpl.
        split; [reflexivity|]. split; [reflexivity|]. apply newOverpassError_shape.
  - intros H. injection H as <- <-.
    split; [reflexivity|]. split; [reflexivity|]. apply newOverpassError_shape.
Qed.

(** The counter of the operator stays below [maxRetries], and the loop
    sends at most as many requests as the budget leaves. *)
Lemma loop_bound (fuel : nat) :
  forall (soFar : Z) (st st' : State) (res : Notification),
    loop fuel soFar st = (res, st') ->
    res <> Pending ->
    soFar < maxRetries this ->
    (posts st' <= posts st + Z.to_nat (maxRetries this - soFar))%nat
    /\ (forall err, res <> Error (Raw err)).
Proof.
  induction fuel as [|fuel IH]; intros soFar st st' res.
  - intros H N. injection H as <- _. congruence.
  - intros H N Hlt. destruct (responses w (posts st)) as [v0|err] eqn:Hr.
    + erewrite step_next in H by exact Hr. injection H as <- <-.
      simpl. split; [lia | discriminate].
    + destruct (delay w this q cachedKey err (soFar + 1) (posted w this q st))
        as [[e|due] st1] eqn:D;
        destruct (delay_effect _ _ _ D) as (P1 & _ & K); simpl in P1.
      * erewrite step_throw in H by (try exact Hr; try exact D; lia).
        injection H as <- <-. simpl. rewrite P1.
        split; [lia | discriminate].
      * erewrite step_retry in H by (try exact Hr; try exact D; lia).
        destruct K as [K _].
        destruct (IH _ _ _ _ H N K) as [B W]. simpl in B. rewrite P1 in B.
        split; [lia | exact W].
Qed.

(** X1.  A run of [query] sends at least one request and at most
    [maxRetries] of them (one when [maxRetries] is not positive), whatever
    the transport answers. *)
Theorem query_request_bound (st : State) :
  exists evs,
    trace (snd (query w this q cachedKey st)) = trace st ++ evs
    /\ (1 <= invocations evs)%nat
    /\ (invocations evs <= Nat.max 1 (Z.to_nat (maxRetries this)))%nat.
Proof.
  destruct (query w this q cachedKey st) as [res st'] eqn:Q. cbn [fst snd].
  destruct (extends_query _ _ _ _ _ Q) as (evs & T & P & _).
  destruct (query_responses _ _ _ _ _ Q) as (Lt & _).
  exists evs. split; [exact T|]. split; [lia|].
  pose proof (retry_never_pending w this q cachedKey st) as N. rewrite Q in N.
  revert Q. unfold query, retry.
  destruct (maxRetries this <=? 0) eqn:E.
  - unfold bind at 1. destruct (source w this q cachedKey st) as [o st1] eqn:S.
    destruct (extends_source _ _ _ _ _ S) as (e1 & (_ & P1 & _) & I1).
    destruct o; rewrite notify_eq; intros H; injection H as <- <-;
      change (posts st1 = (posts st + invocations evs)%nat) in P; lia.
  - apply Z.leb_gt in E. intros L.
    eapply loop_bound in L; [destruct L as [B _]; lia | exact N | lia].
Qed.

Lemma loop_errors_wrapped (fuel : nat) :
  forall (soFar : Z) (st st' : State) (e : Thrown),
    loop fuel soFar st = (Error e, st') ->
    soFar < maxRetries this ->
    exists oe, e = Wrapped oe /\ isOverpassError oe.
Proof.
  induction fuel as [|fuel IH]; intros soFar st st' e; [discriminate|].
  intros H Hlt. destruct (responses w (posts st)) as [v0|err] eqn:Hr.
  - erewrite step_next in H by exact Hr. discriminate.
  - destruct (delay w this q cachedKey err (soFar + 1) (posted w this q st))
      as [[oe|due] st1] eqn:D;
      destruct (delay_effect _ _ _ D) as (_ & _ & K).
    + erewrite step_throw in H by (try exact Hr; try exact D; lia).
      injection H as <- _. eauto.
    + erewrite step_retry in H by (try exact Hr; try exact D; lia).
      destruct K as [K _]. eapply IH; eauto.
Qed.

(** X2.  When [maxRetries] is at least one, a run of [query] that fails
    always fails with an [OverpassError], whose message begins with
    [Overpass Error: ]; the error of the transport never reaches the
    subscriber as it is. *)
Theorem query_errors_are_wrapped (st : State) (e : Thrown) :
  1 <= maxRetries this ->
  fst (query w this q cachedKey st) = Error e ->
  exists oe, e = Wrapped oe /\ isOverpassError oe.
Proof.
  intros HR. destruct (query w this q cachedKey st) as [res st'] eqn:Q.
  cbn [fst snd]. intros ->. revert Q. unfold query, retry.
  destruct (maxRetries this <=? 0) eqn:E; [apply Z.leb_le in E; lia|].
  intros L. eapply loop_errors_wrapped in L; [exact L | lia].
Qed.

(** The cache after a run that fails. *)
Lemma loop_error_cache (fuel : nat) :
  forall (soFar : Z) (st st' : State) (e : Thrown),
    loop fuel soFar st = (Error e, st') ->
    (forall k, k <> cachedKey ->
       LRUCache.peek k (lruCache st') = LRUCache.peek k (lruCache st))
    /\ LRUCache.max (lruCache st') = LRUCache.max (lruCache st)
    /\ LRUCache.ttl (lruCache st') = LRUCache.ttl (lruCache st)
    /\ (soFar < maxRetries this ->
        forall response,
          responses w (pred (posts st')) = Rejected (AxiosError response) ->
          LRUCache.peek cachedKey (lruCache st') = None).
Proof.
  assert (frame : forall err c k, k <> cachedKey ->
             LRUCache.peek k (cacheAfterFatal cachedKey err c) = LRUCache.peek k c).
  { intros [r|d] c k Hk; simpl; [now apply LRUFacts.peek_delete_other | reflexivity]. }
  assert (shape : forall err c,
             LRUCache.max (cacheAfterFatal cachedKey err c) = LRUCache.max c
             /\ LRUCache.ttl (cacheAfterFatal cachedKey err c) = LRUCache.ttl c).
  { intros [r|d] c; now split. }
  induction fuel as [|fuel IH]; intros soFar st st' e; [discriminate|].
  intros H. destruct (responses w (posts st)) as [v0|err] eqn:Hr.
  - erewrite step_next in H by exact Hr. discriminate.
  - destruct (Z_lt_le_dec soFar (maxRetries this)) as [Hlt|Hge].
    + destruct (delay w this q cachedKey err (soFar + 1) (posted w this q st))
        as [[oe|due] st1] eqn:D;
        destruct (delay_effect _ _ _ D) as (P1 & C1 & K); simpl in P1, C1.
      * erewrite step_throw in H by (try exact Hr; try exact D; lia).
        injection H as _ <-. simpl. rewrite C1.
        split; [intros k Hk; now apply frame|].
        split; [apply shape|]. split; [apply shape|].
        intros _ response. rewrite P1. simpl. rewrite Hr.
        intros Hresp. injection Hresp as ->. simpl.
        apply LRUFacts.peek_delete_same.
      * erewrite step_retry in H by (try exact Hr; try exact D; lia).
        destruct K as [K _].
        destruct (IH _ _ _ _ H) as (F & Mx & Tl & Last). simpl in F, Mx, Tl.
        rewrite C1 in F, Mx, Tl.
        split; [intros k Hk; rewrite (F k Hk); now apply frame|].
        split; [rewrite Mx; apply shape|]. split; [rewrite Tl; apply shape|].
        intros _. now apply Last.
    + erewrite step_past in H by (try exact Hr; lia).
      injection H as _ <-. simpl.
      split; [reflexivity|]. split; [reflexivity|]. split; [reflexivity|]. lia.
Qed.

(** X3.  A run of [query] that fails leaves every entry of the cache under
    another key as it was, and the bound and the TTL of the cache too. *)
Theorem failed_query_frame (st : State) (e : Thrown) (k : string) :
  fst (query w this q cachedKey st) = Error e ->
  k <> cachedKey ->
  LRUCache.peek k (lruCache (snd (query w this q cachedKey st)))
  = LRUCache.peek k (lruCache st)
  /\ LRUCache.max (lruCache (snd (query w this q cachedKey st)))
     = LRUCache.max (lruCache st)
  /\ LRUCache.ttl (lruCache (snd (query w this q cachedKey st)))
     = LRUCache.ttl (lruCache st).
Proof.
  destruct (query w this q cachedKey st) as [res st'] eqn:Q. cbn [fst snd].
  intros -> Hk. revert Q. unfold query, retry.
  destruct (maxRetries this <=? 0).
  - unfold bind at 1. destruct (responses w (posts st)) as [v0|err] eqn:Hr.
    + erewrite source_resolved by exact Hr. discriminate.
    + erewrite source_rejected by exact Hr. rewrite notify_eq.
      intros H. injection H as _ <-. now repeat split.
  - intros L. apply loop_error_cache in L. destruct L as (F & Mx & Tl & _).
    split; [now apply F | now split].
Qed.

(** X4.  When [maxRetries] is at least one and the last request of a run
    of [query] is rejected by axios, with or without a response, the run
    fails and the cache holds no entry under the key afterwards. *)
Theorem failed_query_invalidates (st : State) (response : option AxiosResponse) :
  1 <= maxRetries this ->
  responses w (pred (posts (snd (query w this q cachedKey st))))
  = Rejected (AxiosError response) ->
  (exists e, fst (query w this q cachedKey st) = Error e)
  /\ LRUCache.peek cachedKey (lruCache (snd (query w this q cachedKey st))) = None.
Proof.
  intros HR. destruct (query w this q cachedKey st) as [res st'] eqn:Q. cbn [fst snd].
  intros Hlast.
  destruct (query_responses _ _ _ _ _ Q) as (_ & _ & Last).
  rewrite Hlast in Last. simpl in Last. destruct Last as (e & ->).
  split; [eauto|]. revert Q. unfold query, retry.
  destruct (maxRetries this <=? 0) eqn:E; [apply Z.leb_le in E; lia|].
  intros L. apply loop_error_cache in L. destruct L as (_ & _ & _ & Last).
  eapply Last; [lia | exact Hlast].
Qed.

(** A property of the cache that [set] and [delete] keep is kept by every
    run of [query]. *)
Lemma loop_preserves (I : LRUCache.t -> Prop) :
  (forall t k v c, I c -> I (LRUCache.set t k v c)) ->
  (forall k c, I c -> I (LRUCache.delete k c)) ->
  forall (fuel : nat) (soFar : Z) (st : State),
    I (lruCache st) -> I (lruCache (snd (loop fuel soFar st))).
Proof.
  intros Iset Idel. induction fuel as [|fuel IH]; intros soFar st H; [exact H|].
  destruct (responses w (posts st)) as [v0|err] eqn:Hr.
  - erewrite step_next by exact Hr. simpl. now apply Iset.
  - destruct (Z_lt_le_dec soFar (maxRetries this)) as [Hlt|Hge].
    + destruct (delay w this q cachedKey err (soFar + 1) (posted w this q st))
        as [[oe|due] st1] eqn:D;
        destruct (delay_effect _ _ _ D) as (_ & C1 & _); simpl in C1;
        assert (H1 : I (lruCache st1))
          by (rewrite C1; destruct err; simpl; auto).
      * erewrite step_throw by (try exact Hr; try exact D; lia). exact H1.
      * erewrite step_retry by (try exact Hr; try exact D; lia).
        apply IH. exact H1.
    + erewrite step_past by (try exact Hr; lia). exact H.
Qed.

Lemma query_preserves (I : LRUCache.t -> Prop) :
  (forall t k v c, I c -> I (LRUCache.set t k v c)) ->
  (forall k c, I c -> I (LRUCache.delete k c)) ->
  forall st : State,
    I (lruCache st) -> I (lruCache (snd (query w this q cachedKey st))).
Proof.
  intros Iset Idel st H. unfold query, retry.
  destruct (maxRetries this <=? 0); [|now apply loop_preserves].
  unfold bind at 1. destruct (responses w (posts st)) as [v0|err] eqn:Hr.
  - erewrite source_resolved by exact Hr. simpl. now apply Iset.
  - erewrite source_rejected by exact Hr. exact H.
Qed.

End EveryRun.

(* ================================================================== *)
(** * Keys, request bodies and details *)
(* ================================================================== *)

Section Texts.

(** ** The cache key of [getElement] *)

Lemma toString_inj (a b : Z) : JS.toString a = JS.toString b -> a = b.
Proof.
  assert (proper : forall n, Z.to_int n <> Decimal.Pos Decimal.Nil
                             /\ Z.to_int n <> Decimal.Neg Decimal.Nil).
  { intros n. pose proof (DecimalZ.to_of (Z.to_int n)) as H.
    rewrite DecimalZ.of_to in H.
    split; intros E; rewrite E in H; discriminate H. }
  unfold JS.toString. intros H. apply DecimalZ.to_int_inj.
  apply (f_equal NilZero.int_of_string) in H.
  rewrite !NilZero.isi in H by apply proper. now injection H.
Qed.

(** X5.  Two calls of [getElement] share their cache key only when they
    ask for the same type and the same id. *)
Theorem elementKey_injective (t1 t2 : ElementType) (i1 i2 : Z) :
  elementKey t1 i1 = elementKey t2 i2 -> t1 = t2 /\ i1 = i2.
Proof.
  unfold elementKey. destruct t1, t2; simpl; intros H;
    try discriminate H;
    (split; [reflexivity|]); apply toString_inj;
    repeat (injection H as H); exact H.
Qed.

(** ** The body of the request *)

Lemma encode_char (c : ascii) (s : string) :
  exists e,
    JS.encodeURIComponent (String c s) = e ++ JS.encodeURIComponent s
    /\ allChars isEncoded e = true
    /\ forall rest, percentDecode (e ++ rest) = String c (percentDecode rest).
Proof.
  exists (if JS.isUnreserved c then String c ""
          else String "%"
                 (String (JS.hexDigit (nat_of_ascii c / 16))
                    (String (JS.hexDigit (nat_of_ascii c mod 16)) ""))).
  split; [cbn [JS.encodeURIComponent]; now destruct (JS.isUnreserved c)|].
  destruct c as [[|] [|] [|] [|] [|] [|] [|] [|]];
    (split; [vm_compute; reflexivity | intros rest; reflexivity]).
Qed.

Lemma encode_safe (s : string) :
  allChars isEncoded (JS.encodeURIComponent s) = true.
Proof.
  induction s as [|c s IH]; [reflexivity|].
  destruct (encode_char c s) as (e & -> & A & _).
  now rewrite allChars_app, A, IH.
Qed.

Lemma encode_decode (s : string) :
  percentDecode (JS.encodeURIComponent s) = s.
Proof.
  induction s as [|c s IH]; [reflexivity|].
  destruct (encode_char c s) as (e & -> & _ & D).
  now rewrite D, IH.
Qed.

(** X6.  The body of every request is the single form field [data]: after
    [data=] it holds only letters, digits, the marks [-_.!~*'()] and the
    percent sign, so no [&], [=], [+] or space can split or alter the
    field. *)
Theorem request_body_is_one_field (this : OverpassClient) (q : string) :
  exists e,
    requestBody this q = "data=" ++ e
    /\ allChars isEncoded e = true
    /\ allChars (fun c => negb (Ascii.eqb c "&" || Ascii.eqb c "="
                                || Ascii.eqb c "+" || Ascii.eqb c " ")) e = true.
Proof.
  exists (JS.encodeURIComponent (fullQuery this q)).
  split; [reflexivity|]. split; [apply encode_safe|].
  generalize (encode_safe (fullQuery this q)).
  generalize (JS.encodeURIComponent (fullQuery this q)) as e.
  induction e as [|c e IH]; [reflexivity|]. simpl.
  intros H. apply andb_prop in H. destruct H as [Hc He].
  rewrite (IH He), andb_true_r.
  destruct c as [[|] [|] [|] [|] [|] [|] [|] [|]]; try reflexivity;
    discriminate Hc.
Qed.

(** X7.  Decoding the percent-encoding of the body gives back the query
    sent, so a client sends different bodies for different queries. *)
Theorem request_body_round_trip (this : OverpassClient) (q1 q2 : string) :
  percentDecode (JS.encodeURIComponent (fullQuery this q1)) = fullQuery this q1
  /\ (requestBody this q1 = requestBody this q2 -> q1 = q2).
Proof.
  split; [apply encode_decode|].
  unfold requestBody. intros H. apply append_cancel in H.
  apply (f_equal percentDecode) in H. rewrite !encode_decode in H.
  unfold fullQuery in H. cbv zeta in H.
  set (timeoutEnabled := if negb (timeout this =? 0) then _ else _) in H.
  apply (@append_cancel "[out:") in H.
  apply (@append_cancel (formatName (format this))) in H.
  apply (@append_cancel "]") in H.
  apply (@append_cancel timeoutEnabled) in H.
  apply (@append_cancel ";") in H. exact H.
Qed.

(** ** The details of a 400 response *)







Lemma occursIn_join (sep x : string) (xs : list string) :
  In x xs -> occursIn x (JS.join sep xs).
Proof.
  unfold JS.join. induction xs as [|y xs IH]; [intros []|].
  intros [->|Hin].
  - destruct xs as [|z xs]; simpl.
    + exists "", "". now rewrite append_nil_r.
    + exists "", (sep ++ String.concat sep (z :: xs)). reflexivity.
  - destruct (IH Hin) as (pre & post & E).
    destruct xs as [|z xs]; [destruct Hin|].
    change (String.concat sep (y :: z :: xs))
      with (y ++ sep ++ String.concat sep (z :: xs)).
    rewrite E. exists (y ++ sep ++ pre), post. now rewrite !append_assoc.
Qed.

Lemma occursIn_after (p x s : string) : occursIn x s -> occursIn x (p ++ s).
Proof.
  intros (pre & post & ->). exists (p ++ pre), post. now rewrite append_assoc.
Qed.

(** X9.  Every detail extracted from the body of a 400 response occurs in
    the message of the bad-request error, after the words
    [Bad Request Error] and the heading [Details: ]. *)
Theorem message_shows_details (query body d : string) :
  In d (badRequestDetails body) ->
  exists head listing,
    message (badRequest query body)
    = head ++ "Bad Request Error" ++ JS.newline ++ "Details: " ++ listing
    /\ listing = JS.join "; " (badRequestDetails body)
    /\ occursIn d listing.
Proof.
  intros Hin. unfold badRequest, newOverpassError.
  destruct (badRequestDetails body) as [|e es] eqn:B; [destruct Hin|].
  cbn [message].
  exists ("Overpass Error: "
          ++ match query with
             | EmptyString => ""
             | String c q0 => String c q0 ++ " "
             end),
         (JS.join "; " (e :: es)).
  split; [|split; [reflexivity | now apply occursIn_join]].
  destruct query; simpl; now rewrite ?append_assoc.
Qed.

End Texts.

(* ================================================================== *)
(** * The three lookups and [clearCache] *)
(* ================================================================== *)

Section Lookups.

Variable w : World.
Variable this : OverpassClient.
Variable numberToString : Q -> string.

Local Open Scope list_scope.

(** The lookup that [getElement], [getElementsByBoundingBox] and
    [getElementsByRadius] begin with, followed by the run [m] when
    [if (cached)] fails. *)
Local Abbreviation lookupOr key m :=
  (cached <- cacheGet key ;;
   match cached with
   | Some v => if truthy v then wait (JS.Num 200) ;; notify (Next v) else m
   | None => m
   end).

Lemma lookup_hit (key : string) (m : M Notification) (st : State)
    (e : LRUCache.Entry) :
  LRUCache.peek key (lruCache st) = Some e ->
  LRUCache.isStale (lruCache st) (now st) e = false ->
  truthy (LRUCache.value e) = true ->
  exists st',
    lookupOr key m st = (Next (LRUCache.value e), st')
    /\ posts st' = posts st
    /\ trace st'
       = trace st ++ [EvWait (JS.Num 200); EvNotify (Next (LRUCache.value e))].
Proof.
  intros P S V. unfold bind at 1, cacheGet.
  erewrite LRUFacts.get_fresh by eassumption. rewrite V.
  eexists. split; [reflexivity|]. simpl. split; [reflexivity|].
  now rewrite <- app_assoc.
Qed.

Lemma lookup_miss (key : string) (m : M Notification) (st : State)
    (c : LRUCache.t) :
  LRUCache.get (now st) key (lruCache st) = (None, c) ->
  lookupOr key m st = m (withCache c st).
Proof. intros G. unfold bind at 1, cacheGet. now rewrite G. Qed.

Lemma lookup_falsy (key : string) (m : M Notification) (st : State)
    (v : ResponseData) (c : LRUCache.t) :
  LRUCache.get (now st) key (lruCache st) = (Some v, c) ->
  truthy v = false ->
  lookupOr key m st = m (withCache c st).
Proof. intros G V. unfold bind at 1, cacheGet. now rewrite G, V. Qed.

Lemma lookup_next (key q : string) (st st' : State) (v : ResponseData) :
  lookupOr key (query w this q key) st = (Next v, st') ->
  exists e, LRUCache.peek key (lruCache st') = Some e /\ LRUCache.value e = v.
Proof.
  unfold bind at 1, cacheGet.
  destruct (LRUCache.get (now st) key (lruCache st)) as [[v0|] c] eqn:G.
  - destruct (truthy v0).
    + unfold bind. simpl. intros H. injection H as <- <-. simpl.
      apply LRUFacts.get_hit_peek in G. destruct G as (e & P & V & _).
      exists e. now split.
    + intros H. apply query_next in H. destruct H as (pre & _ & P & _).
      eexists. split; [exact P | reflexivity].
  - intros H. apply query_next in H. destruct H as (pre & _ & P & _).
    eexists. split; [exact P | reflexivity].
Qed.

(** After a lookup that delivered a payload, the same lookup made while the
    entry is not stale delivers it again without a request, whatever query
    it would run on a miss. *)
Lemma lookup_again (key q1 q2 : string) (st st1 st2 : State)
    (v : ResponseData) :
  lookupOr key (query w this q1 key) st = (Next v, st1) ->
  truthy v = true ->
  lruCache st2 = lruCache st1 ->
  (forall e, LRUCache.peek key (lruCache st1) = Some e ->
             LRUCache.isStale (lruCache st1) (now st2) e = false) ->
  exists st3 evs,
    lookupOr key (query w this q2 key) st2 = (Next v, st3)
    /\ posts st3 = posts st2
    /\ trace st3 = trace st2 ++ evs
    /\ invocations evs = 0%nat.
Proof.
  intros G Hv C F. apply lookup_next in G. destruct G as (e & P & V).
  rewrite <- C in P, F. rewrite <- V in Hv.
  destruct (@lookup_hit key (query w this q2 key) _ _ P (F e P) Hv)
    as (st3 & G2 & Hp & T).
  rewrite V in G2, T. exists st3. eexists. eauto.
Qed.

(** X10.  After a call for one body of a query by bounding box that
    delivered a truthy payload, as every object is, a call with the same
    tags, box and elements made while the entry is not older than the TTL
    delivers the same payload and sends no request, whatever output format
    it names: the cache key does not hold the output format. *)
Theorem bbox_cache_ignores_output_format
    (tags : list (string * list string)) (bbox : Q * Q * Q * Q)
    (elements : list ElementType) (f1 f2 : string)
    (st st1 st2 : State) (v : ResponseData) :
  getElementsByBoundingBox w this numberToString tags bbox elements f1 st
  = (Next v, st1) ->
  truthy v = true ->
  lruCache st2 = lruCache st1 ->
  (forall e,
      LRUCache.peek (bboxKey numberToString tags bbox elements) (lruCache st1)
      = Some e ->
      LRUCache.isStale (lruCache st1) (now st2) e = false) ->
  exists st3 evs,
    getElementsByBoundingBox w this numberToString tags bbox elements f2 st2
    = (Next v, st3)
    /\ posts st3 = posts st2
    /\ trace st3 = trace st2 ++ evs
    /\ invocations evs = 0%nat.
Proof. unfold getElementsByBoundingBox. apply lookup_again. Qed.

(** X11.  The same for a query by radius, after a call that delivered a
    truthy payload: the cache key holds the tags, the centre, the radius
    and the elements, not the output format. *)
Theorem radius_cache_ignores_output_format
    (tags : list (string * list string)) (lat lon radius : Q)
    (elements : list ElementType) (f1 f2 : string)
    (st st1 st2 : State) (v : ResponseData) :
  getElementsByRadius w this numberToString tags lat lon radius elements f1 st
  = (Next v, st1) ->
  truthy v = true ->
  lruCache st2 = lruCache st1 ->
  (forall e,
      LRUCache.peek (radiusKey numberToString tags lat lon radius elements)
        (lruCache st1) = Some e ->
      LRUCache.isStale (lruCache st1) (now st2) e = false) ->
  exists st3 evs,
    getElementsByRadius w this numberToString tags lat lon radius elements f2 st2
    = (Next v, st3)
    /\ posts st3 = posts st2
    /\ trace st3 = trace st2 ++ evs
    /\ invocations evs = 0%nat.
Proof. unfold getElementsByRadius. apply lookup_again. Qed.

(** A run of [query] sends a request. *)
Lemma query_sends (q key : string) (st : State) :
  exists evs,
    trace (snd (query w this q key st)) = trace st ++ evs
    /\ (1 <= invocations evs)%nat.
Proof.
  destruct (query w this q key st) as [res st'] eqn:Q. cbn [snd].
  destruct (extends_query _ _ _ _ _ Q) as (evs & T & P & _).
  destruct (query_responses _ _ _ _ _ Q) as (Lt & _).
  exists evs. split; [exact T | lia].
Qed.

(** X12.  After [clearCache()] the cache is empty and every lookup is a
    miss: [getElement], [getElementsByBoundingBox] and
    [getElementsByRadius] each send a request, whatever was cached
    before. *)
Theorem clearCache_forces_requests (st : State)
    (type : ElementType) (id : Z)
    (tags : list (string * list string)) (bbox : Q * Q * Q * Q)
    (lat lon radius : Q) (elements : list ElementType) (outputFormat : string) :
  let cleared := snd (clearCache st) in
  LRUCache.size (lruCache cleared) = 0%nat
  /\ (exists evs,
        trace (snd (getElement w this type id outputFormat cleared))
        = trace st ++ evs /\ (1 <= invocations evs)%nat)
  /\ (exists evs,
        trace (snd (getElementsByBoundingBox w this numberToString tags bbox
                      elements outputFormat cleared))
        = trace st ++ evs /\ (1 <= invocations evs)%nat)
  /\ (exists evs,
        trace (snd (getElementsByRadius w this numberToString tags lat lon
                      radius elements outputFormat cleared))
        = trace st ++ evs /\ (1 <= invocations evs)%nat).
Proof.
  intros cleared.
  assert (miss : forall key m, lookupOr key m cleared = m cleared).
  { intros key m. erewrite lookup_miss by reflexivity. now destruct st. }
  split; [reflexivity|].
  unfold getElement, getElementsByBoundingBox, getElementsByRadius.
  rewrite !miss.
  repeat split;
    match goal with
    | |- exists evs, trace (snd (query _ _ ?q ?k _)) = _ /\ _ =>
        exact (@query_sends q k cleared)
    end.
Qed.

(** X13.  An entry older than the TTL does not answer: [getElement] removes
    it and runs the query as on a client that never cached the element,
    which sends a request. *)
Theorem stale_entry_is_refetched (type : ElementType) (id : Z)
    (outputFormat : string) (st : State) (e : LRUCache.Entry) :
  LRUCache.peek (elementKey type id) (lruCache st) = Some e ->
  LRUCache.isStale (lruCache st) (now st) e = true ->
  let st0 := withCache (LRUCache.delete (elementKey type id) (lruCache st)) st in
  getElement w this type id outputFormat st
  = query w this (elementQuery type id outputFormat) (elementKey type id) st0
  /\ LRUCache.peek (elementKey type id) (lruCache st0) = None
  /\ exists evs,
       trace (snd (getElement w this type id outputFormat st)) = trace st ++ evs
       /\ (1 <= invocations evs)%nat.
Proof.
  intros P S st0.
  assert (G : getElement w this type id outputFormat st
              = query w this (elementQuery type id outputFormat)
                  (elementKey type id) st0).
  { unfold getElement. apply lookup_miss. unfold LRUCache.get. now rewrite P, S. }
  split; [exact G|]. split; [apply LRUFacts.peek_delete_same|].
  rewrite G. exact (@query_sends _ _ st0).
Qed.

(** X20.  An entry whose value is falsy does not answer either, however
    young it is: [get] finds it and marks it as used, the test
    [if (cached)] fails, and [getElement] runs the query, which sends a
    request. *)
Theorem falsy_entry_is_a_miss (type : ElementType) (id : Z)
    (outputFormat : string) (st : State) (e : LRUCache.Entry) :
  LRUCache.peek (elementKey type id) (lruCache st) = Some e ->
  LRUCache.isStale (lruCache st) (now st) e = false ->
  truthy (LRUCache.value e) = false ->
  let st0 :=
    withCache (snd (LRUCache.get (now st) (elementKey type id) (lruCache st))) st in
  getElement w this type id outputFormat st
  = query w this (elementQuery type id outputFormat) (elementKey type id) st0
  /\ LRUCache.peek (elementKey type id) (lruCache st0) = Some e
  /\ exists evs,
       trace (snd (getElement w this type id outputFormat st)) = trace st ++ evs
       /\ (1 <= invocations evs)%nat.
Proof.
  intros P S V st0.
  pose proof (@LRUFacts.get_fresh (now st) _ _ _ P S) as F.
  assert (G : getElement w this type id outputFormat st
              = query w this (elementQuery type id outputFormat)
                  (elementKey type id) st0).
  { unfold getElement, st0. rewrite F.
    eapply lookup_falsy; [exact F | exact V]. }
  split; [exact G|]. split.
  - destruct (@LRUFacts.get_hit_peek _ _ _ _ _ F) as (e' & P' & _ & P0 & _).
    rewrite P in P0. injection P0 as <-. unfold st0. rewrite F. exact P'.
  - rewrite G. exact (@query_sends _ _ st0).
Qed.

End Lookups.

(* ================================================================== *)
(** * The bound of the cache *)
(* ================================================================== *)

Section CacheBound.

Variable w : World.
Variable this : OverpassClient.
Variable numberToString : Q -> string.

Local Open Scope list_scope.

Lemma length_remove_le (k : string) (es : list LRUCache.Entry) :
  (List.length (LRUCache.remove k es) <= List.length es)%nat.
Proof.
  induction es as [|e es IH]; simpl; [lia|].
  destruct (negb (LRUCache.hasKey k e)); simpl; lia.
Qed.

Lemma length_remove_lt (k : string) (es : list LRUCache.Entry) (e : LRUCache.Entry) :
  find (LRUCache.hasKey k) es = Some e ->
  (List.length (LRUCache.remove k es) < List.length es)%nat.
Proof.
  induction es as [|x es IH]; simpl; [discriminate|].
  destruct (LRUCache.hasKey k x); simpl.
  - intros _. pose proof (length_remove_le k es). lia.
  - intros H. apply IH in H. lia.
Qed.

Lemma length_removelast (es : list LRUCache.Entry) :
  List.length (removelast es) = pred (List.length es).
Proof.
  induction es as [|x [|y es] IH]; [reflexivity | reflexivity|].
  change (removelast (x :: y :: es)) with (x :: removelast (y :: es)).
  change (List.length (x :: removelast (y :: es)))
    with (S (List.length (removelast (y :: es)))).
  rewrite IH. reflexivity.
Qed.

(** The cache is within its bound [m]. *)
Local Abbreviation within m c := (LRUCache.max c = m /\ bounded c).

Lemma within_delete (m : nat) (k : string) (c : LRUCache.t) :
  within m c -> within m (LRUCache.delete k c).
Proof.
  intros [Hm [H0|Hb]]; (split; [exact Hm|]); [now left | right].
  unfold LRUCache.size in *. simpl. pose proof (length_remove_le k (LRUCache.entries c)).
  lia.
Qed.

Lemma within_set (m : nat) (t : Q) (k : string) (v : ResponseData)
    (c : LRUCache.t) :
  within m c -> within m (LRUCache.set t k v c).
Proof.
  intros [Hm B]. unfold LRUCache.set, LRUCache.peek.
  destruct (find (LRUCache.hasKey k) (LRUCache.entries c)) as [e|] eqn:F.
  - split; [exact Hm|]. destruct B as [H0|Hb]; [now left | right].
    unfold LRUCache.size in *. simpl. apply length_remove_lt in F. lia.
  - destruct (Nat.eqb_spec (LRUCache.max c) 0) as [E0|N0]; simpl.
    + split; [exact Hm | now left].
    + destruct (Nat.leb_spec (LRUCache.max c) (List.length (LRUCache.entries c)))
        as [Hfull|Hroom];
        (split; [exact Hm|]); right; unfold LRUCache.size in *; simpl.
      * destruct B as [H0|Hb]; [lia|].
        unfold LRUCache.size in Hb. rewrite length_removelast. lia.
      * lia.
Qed.

Lemma within_get (m : nat) (t : Q) (k : string) (c : LRUCache.t) :
  within m c -> within m (snd (LRUCache.get t k c)).
Proof.
  intros H. unfold LRUCache.get.
  destruct (LRUCache.peek k c) as [e|] eqn:P; [|exact H].
  destruct (LRUCache.isStale c t e); [now apply within_delete|].
  destruct H as [Hm [H0|Hb]]; (split; [exact Hm|]); [now left | right].
  unfold LRUCache.size in *. simpl. apply length_remove_lt in P. lia.
Qed.

Lemma lookup_within (m : nat) (key : string) (mrun : M Notification) :
  (forall st, within m (lruCache st) -> within m (lruCache (snd (mrun st)))) ->
  forall st,
    within m (lruCache st) ->
    within m
      (lruCache
         (snd ((cached <- cacheGet key ;;
                match cached with
                | Some v =>
                    if truthy v then wait (JS.Num 200) ;; notify (Next v)
                    else mrun
                | None => mrun
                end) st))).
Proof.
  intros Hrun st H.
  pose proof (within_get (now st) key H) as G.
  match goal with
  | |- context [snd (?run st)] =>
      assert (E : run st
                  = match LRUCache.get (now st) key (lruCache st) with
                    | (Some v, c) =>
                        if truthy v
                        then (wait (JS.Num 200) ;; notify (Next v)) (withCache c st)
                        else mrun (withCache c st)
                    | (None, c) => mrun (withCache c st)
                    end)
        by (unfold bind at 1, cacheGet;
            destruct (LRUCache.get (now st) key (lruCache st)) as [[v|] c];
            [destruct (truthy v)|]; reflexivity);
      rewrite E
  end.
  destruct (LRUCache.get (now st) key (lruCache st)) as [[v|] c]; simpl in G.
  - destruct (truthy v); [exact G | now apply Hrun].
  - now apply Hrun.
Qed.

(** X14.  The cache never outgrows its bound: when it holds at most [max]
    entries (500 for the cache that the constructor builds), it still does
    after any call of [getElement], [getElementsByBoundingBox],
    [getElementsByRadius] or [clearCache], however the call ends, and its
    bound is the same. *)
Theorem cache_stays_within_bound (st : State)
    (type : ElementType) (id : Z)
    (tags : list (string * list string)) (bbox : Q * Q * Q * Q)
    (lat lon radius : Q) (elements : list ElementType) (outputFormat : string) :
  bounded (lruCache st) ->
  let same st' :=
    LRUCache.max (lruCache st') = LRUCache.max (lruCache st)
    /\ bounded (lruCache st') in
  same (snd (getElement w this type id outputFormat st))
  /\ same (snd (getElementsByBoundingBox w this numberToString tags bbox
                  elements outputFormat st))
  /\ same (snd (getElementsByRadius w this numberToString tags lat lon radius
                  elements outputFormat st))
  /\ same (snd (clearCache st)).
Proof.
  intros B same.
  assert (H : within (LRUCache.max (lruCache st)) (lruCache st)) by now split.
  assert (Q : forall q key st0,
             within (LRUCache.max (lruCache st)) (lruCache st0) ->
             within (LRUCache.max (lruCache st))
               (lruCache (snd (query w this q key st0)))).
  { intros q key.
    apply (@query_preserves w this q key
             (fun c => within (LRUCache.max (lruCache st)) c)).
    - intros t k v c. apply within_set.
    - intros k c. apply within_delete. }
  unfold same, getElement, getElementsByBoundingBox, getElementsByRadius.
  split; [apply lookup_within; [apply Q | exact H]|].
  split; [apply lookup_within; [apply Q | exact H]|].
  split; [apply lookup_within; [apply Q | exact H]|].
  split; [reflexivity|]. destruct B as [H0|Hb]; [now left | right].
  unfold LRUCache.size. simpl. lia.
Qed.

End CacheBound.

(* ================================================================== *)
(** * The text of the queries by bounding box and by radius *)
(* ================================================================== *)

Section Filters.

Variable numberToString : Q -> string.

Lemma occursIn_before (x s p : string) : occursIn x s -> occursIn x (s ++ p).
Proof.
  intros (pre & post & ->). exists pre, (post ++ p). now rewrite !append_assoc.
Qed.

Lemma occursIn_trans (x y s : string) :
  occursIn x y -> occursIn y s -> occursIn x s.
Proof.
  intros (p1 & q1 & ->) (p2 & q2 & ->).
  exists (p2 ++ p1), (q1 ++ q2). now rewrite !append_assoc.
Qed.

(** Every statement asked for is in the filters. *)
Lemma tagFilters_complete (statement : string -> string -> ElementType -> string)
    (tags : list (string * list string)) (elements : list ElementType)
    (tag value : string) (values : list string) (element : ElementType) :
  In (tag, values) tags -> In value values -> In element elements ->
  occursIn (statement tag value element) (tagFilters statement tags elements).
Proof.
  intros Ht Hv He. unfold tagFilters.
  apply occursIn_trans
    with (y := "(" ++ JS.join " " (map (statement tag value) elements) ++ ");").
  - apply occursIn_after, occursIn_before, occursIn_join.
    now apply in_map.
  - apply occursIn_join. apply in_flat_map. exists (tag, values).
    split; [exact Ht|]. simpl.
    apply in_map_iff. exists value. now split.
Qed.

(** X15.  The query by bounding box asks for everything it was given: for
    every tag, every value listed for it and every element type, the
    statement [element["tag"="value"](minLat,minLon,maxLat,maxLon);] occurs
    in the text sent, which ends with a space and the output format. *)
Theorem bbox_query_complete
    (tags : list (string * list string)) (bbox : Q * Q * Q * Q)
    (elements : list ElementType) (outputFormat : string)
    (tag value : string) (values : list string) (element : ElementType) :
  In (tag, values) tags -> In value values -> In element elements ->
  occursIn (bboxStatement numberToString bbox tag value element)
    (bboxQuery numberToString tags bbox elements outputFormat)
  /\ exists filters,
       bboxQuery numberToString tags bbox elements outputFormat
       = filters ++ " " ++ outputFormat.
Proof.
  intros Ht Hv He. split; [|eexists; reflexivity].
  unfold bboxQuery. apply occursIn_before. eapply tagFilters_complete; eauto.
Qed.

(** X16.  The query by radius asks for everything it was given: for every
    tag, every value listed for it and every element type, the statement
    [element(around:radius,lat,lon)["tag"="value"];] occurs in the text
    sent, which ends with a space and the output format. *)
Theorem radius_query_complete
    (tags : list (string * list string)) (lat lon radius : Q)
    (elements : list ElementType) (outputFormat : string)
    (tag value : string) (values : list string) (element : ElementType) :
  In (tag, values) tags -> In value values -> In element elements ->
  occursIn (radiusStatement numberToString lat lon radius tag value element)
    (radiusQuery numberToString tags lat lon radius elements outputFormat)
  /\ exists filters,
       radiusQuery numberToString tags lat lon radius elements outputFormat
       = filters ++ " " ++ outputFormat.
Proof.
  intros Ht Hv He. split; [|eexists; reflexivity].
  unfold radiusQuery. apply occursIn_before. eapply tagFilters_complete; eauto.
Qed.

End Filters.

(* ================================================================== *)
(** * Recovery, key spaces and the reading of [retry-after] *)
(* ================================================================== *)

Section Recovery.

Variable w : World.
Variable this : OverpassClient.
Variables q cachedKey : string.

Local Open Scope list_scope.

Local Abbreviation loop fuel soFar :=
  (subscribeForRetry fuel (maxRetries this) (delay w this q cachedKey)
     (source w this q cachedKey) soFar).

Lemma loop_recovers (n : nat) :
  forall (k : nat) (soFar : Z) (st : State) (v : ResponseData),
    soFar + Z.of_nat n < maxRetries this ->
    (forall i, (i < n)%nat ->
       exists r, responses w (posts st + i) = Rejected (AxiosError (Some r))
                 /\ isRetryableStatus (status r) = true) ->
    responses w (posts st + n) = Resolved v ->
    exists st',
      loop (S n + k) soFar st = (Next v, st')
      /\ posts st' = (posts st + S n)%nat.
Proof.
  induction n as [|n IH]; intros k soFar st v HR Hfail Hok.
  - rewrite Nat.add_0_r in Hok. eexists. split.
    + apply step_next. exact Hok.
    + simpl. lia.
  - destruct (Hfail 0%nat) as (r & Hr & Hs); [lia|].
    rewrite Nat.add_0_r in Hr.
    assert (Hlt : soFar + 1 < maxRetries this) by lia.
    pose proof (@delay_retryAfter w this q cachedKey (posted w this q st) r _ Hlt Hs)
      as D.
    destruct (retryAfter_timer w (soFar + 1)
                (if status r =? 429 then retryAfterHeader r else None)
                (invalidated cachedKey (posted w this q st)))
      as (due & wn & st1 & R1 & _ & P1 & _).
    rewrite R1 in D.
    assert (P2 : posts (waited due st1) = S (posts st))
      by (simpl; rewrite P1; reflexivity).
    destruct (IH k (soFar + 1) (waited due st1) v) as (st' & L & P').
    + lia.
    + intros i Hi. rewrite P2. destruct (Hfail (S i)) as (r' & Hr' & Hs'); [lia|].
      exists r'. split; [|exact Hs'].
      rewrite <- Hr'. f_equal. lia.
    + rewrite P2. rewrite <- Hok. f_equal. lia.
    + exists st'. split.
      * change (S (S n) + k)%nat with (S (S n + k)).
        erewrite step_retry; [exact L | exact Hr | lia | exact D].
      * rewrite P', P2. lia.
Qed.

(** X17.  A run of [query] recovers from retryable failures: when the
    first [n] requests fail with a status among 429, 500, 502, 503 and 504
    and the next one is answered with a payload, and [n] is below
    [maxRetries], the run delivers that payload after exactly [n + 1]
    requests. *)
Theorem query_recovers (st : State) (n : nat) (v : ResponseData) :
  Z.of_nat n < maxRetries this ->
  (forall i, (i < n)%nat ->
     exists r, responses w (posts st + i) = Rejected (AxiosError (Some r))
               /\ isRetryableStatus (status r) = true) ->
  responses w (posts st + n) = Resolved v ->
  fst (query w this q cachedKey st) = Next v
  /\ posts (snd (query w this q cachedKey st)) = (posts st + n + 1)%nat.
Proof.
  intros HR Hfail Hok. unfold query, retry.
  destruct (maxRetries this <=? 0) eqn:E; [apply Z.leb_le in E; lia|].
  destruct (@loop_recovers n (Z.to_nat (maxRetries this) - n) 0 st v)
    as (st' & L & P); [lia | exact Hfail | exact Hok |].
  replace (S (Z.to_nat (maxRetries this)))
    with (S n + (Z.to_nat (maxRetries this) - n))%nat by lia.
  rewrite L. simpl. split; [reflexivity | lia].
Qed.

End Recovery.

Section KeySpaces.

Variable numberToString : Q -> string.

(** X18.  The three lookups never share a cache key: the keys of
    [getElement] begin with the type of the element, those of
    [getElementsByBoundingBox] with [bbox-] and those of
    [getElementsByRadius] with [radius-]. *)
Theorem cache_keys_are_disjoint
    (type : ElementType) (id : Z)
    (tags1 tags2 : list (string * list string)) (bbox : Q * Q * Q * Q)
    (lat lon radius : Q) (elements1 elements2 : list ElementType) :
  elementKey type id <> bboxKey numberToString tags1 bbox elements1
  /\ elementKey type id <> radiusKey numberToString tags2 lat lon radius elements2
  /\ bboxKey numberToString tags1 bbox elements1
     <> radiusKey numberToString tags2 lat lon radius elements2.
Proof.
  destruct bbox as [[[a b] c] d].
  unfold elementKey, bboxKey, radiusKey.
  repeat split; destruct type; simpl; discriminate.
Qed.

End KeySpaces.

Section RetryAfterText.

Variable w : World.
Variable this : OverpassClient.
Variables q cachedKey : string.

Local Open Scope list_scope.

Local Abbreviation loop fuel soFar :=
  (subscribeForRetry fuel (maxRetries this) (delay w this q cachedKey)
     (source w this q cachedKey) soFar).

(** [rest] does not go on with a digit. *)
Local Abbreviation stops rest :=
  (rest = ""%string \/ exists c r, rest = String c r /\ JS.digit c = None).

Lemma digits_stop (rest : string) (acc : Z) : stops rest -> JS.digits acc rest = acc.
Proof.
  intros [->|(c & r & -> & H)]; [reflexivity|]. now rewrite digits_cons, H.
Qed.

Lemma digits_app (rest h : string) :
  stops rest -> forall acc, JS.digits acc (h ++ rest)%string = JS.digits acc h.
Proof.
  intros S. induction h as [|a h IH]; intros acc; [now apply digits_stop|].
  change (String a h ++ rest)%string with (String a (h ++ rest)%string).
  rewrite !digits_cons. destruct (JS.digit a); [apply IH | reflexivity].
Qed.

Lemma parseInt_leading (h rest : string) (u : Decimal.uint) :
  NilZero.uint_of_string h = Some u -> stops rest ->
  JS.parseInt (h ++ rest)%string = Some (Z.of_uint u).
Proof.
  intros H S. destruct (numeral_head _ H) as (c & s' & -> & Hd & Hu).
  destruct (digits_numeral _ Hu) as [_ H0].
  unfold Z.of_uint. rewrite <- H0, <- (digits_app (String c s') S 0).
  change (String c s' ++ rest)%string with (String c (s' ++ rest)%string).
  destruct c as [[|] [|] [|] [|] [|] [|] [|] [|]];
    try (exfalso; apply Hd; reflexivity); reflexivity.
Qed.

(** X19.  A [retry-after] header is read by [parseInt]: when its text
    begins with a decimal integer and goes on with anything but a digit,
    as in [1.5] or [120 seconds], a 429 that does not exhaust the budget
    waits for that integer times 1000 milliseconds, and [Math.random] is
    not called.  (The integer is taken within the range where the
    arithmetic of JavaScript numbers is exact.) *)
Theorem retry_after_leading_integer
    (fuel : nat) (soFar : Z) (st : State) (r : AxiosResponse)
    (h rest : string) (u : Decimal.uint) :
  responses w (posts st) = Rejected (AxiosError (Some r)) ->
  status r = 429 ->
  soFar + 1 < maxRetries this ->
  header "retry-after" r = Some (h ++ rest)%string ->
  NilZero.uint_of_string h = Some u ->
  stops rest ->
  Z.of_uint u * 1000 <= 2 ^ 53 ->
  exists st1,
    loop (S fuel) soFar st = loop fuel (soFar + 1) st1
    /\ trace st1
       = trace st
           ++ [EvPost (requestBody this q); EvCacheDelete cachedKey;
               EvWarn (RateLimitReached (JS.Num (inject_Z (Z.of_uint u * 1000))));
               EvWait (JS.Num (inject_Z (Z.of_uint u * 1000)))]
    /\ draws st1 = draws st.
Proof.
  intros Hr H429 Hlt Hh Hu S _.
  assert (Hs : isRetryableStatus (status r) = true) by now rewrite H429.
  assert (D : delay w this q cachedKey (AxiosError (Some r)) (soFar + 1)
                 (posted w this q st)
               = retryAfter w (soFar + 1) (retryAfterHeader r)
                   (invalidated cachedKey (posted w this q st))).
  { rewrite (@delay_retryAfter w this q cachedKey _ r _ Hlt Hs).
    now rewrite H429. }
  destruct (numeral_head _ Hu) as (c & h' & E & _ & _).
  unfold retryAfterHeader in D. rewrite Hh in D.
  rewrite E in D at 1.
  change (String c h' ++ rest)%string with (String c (h' ++ rest)%string) in D.
  cbv iota beta in D.
  change (String c (h' ++ rest)%string) with (String c h' ++ rest)%string in D.
  rewrite <- E, (parseInt_leading _ Hu S) in D.
  eexists. split.
  - eapply step_retry; [exact Hr | lia | exact D].
  - simpl. split; [|reflexivity]. now rewrite <- !app_assoc.
Qed.

End RetryAfterText.

(* ================================================================== *)
(** * The further theorems at sample inputs *)
(* ================================================================== *)

Section FurtherRuns.

Import Sample.

Local Open Scope list_scope.

(** X2: two retries allowed, a transport answering 400. *)
Lemma wrapped_error_witness :
  1 <= maxRetries (client 2)
  /\ fst (query rejecting (client 2) q key fresh)
     = Error (Wrapped (badRequest q badRequestBody))
  /\ isOverpassError (badRequest q badRequestBody).
Proof.
  assert (H1 : 1 <= maxRetries (client 2)) by (intro C; discriminate C).
  assert (Q : fst (query rejecting (client 2) q key fresh)
              = Error (Wrapped (badRequest q badRequestBody)))
    by (vm_compute; reflexivity).
  split; [exact H1|]. split; [exact Q|].
  destruct (@query_errors_are_wrapped rejecting (client 2) q key fresh _ H1 Q)
    as (oe & E & O).
  injection E as <-. exact O.
Defined.

(** X3: [payload] cached under [node-123], a query for [way-7] rejected
    with a 400. *)
Lemma frame_witness :
  fst (query rejecting (client 2) "way(7); out;" "way-7" warm)
  = Error (Wrapped (badRequest "way(7); out;" badRequestBody))
  /\ key <> "way-7"%string
  /\ LRUCache.peek key
       (lruCache (snd (query rejecting (client 2) "way(7); out;" "way-7" warm)))
     = Some entry.
Proof.
  assert (Q : fst (query rejecting (client 2) "way(7); out;" "way-7" warm)
              = Error (Wrapped (badRequest "way(7); out;" badRequestBody)))
    by (vm_compute; reflexivity).
  assert (N : key <> "way-7"%string) by discriminate.
  split; [exact Q|]. split; [exact N|].
  destruct (@failed_query_frame rejecting (client 2) "way(7); out;"%string
              "way-7"%string warm _ key Q N) as (P & _ & _).
  rewrite P. reflexivity.
Defined.

(** X4: [payload] cached under the key, a transport answering 503, two
    retries allowed. *)
Lemma invalidation_witness :
  1 <= maxRetries (client 2)
  /\ responses unavailable
       (pred (posts (snd (query unavailable (client 2) q key warm))))
     = failed serviceUnavailable
  /\ LRUCache.peek key (lruCache warm) = Some entry
  /\ LRUCache.peek key (lruCache (snd (query unavailable (client 2) q key warm)))
     = None.
Proof.
  assert (H1 : 1 <= maxRetries (client 2)) by (intro C; discriminate C).
  split; [exact H1|]. split; [reflexivity|]. split; [reflexivity|].
  destruct (@failed_query_invalidates unavailable (client 2) q key warm
              (Some serviceUnavailable) H1 eq_refl) as [_ P].
  exact P.
Defined.

(** X5: the key [node-123]. *)
Lemma element_key_witness :
  elementKey node 123 = key /\ (node = node /\ 123 = 123).
Proof.
  split; [reflexivity|].
  exact (@elementKey_injective node node 123 123 eq_refl).
Defined.


(** X9: the message built from that body. *)
Lemma shown_detail_witness :
  In ("Invalid syntax " ++ JS.dquote ++ "test" ++ JS.dquote)%string
    (badRequestDetails badRequestBody)
  /\ exists head listing,
       message (badRequest q badRequestBody)
       = (head ++ "Bad Request Error" ++ JS.newline ++ "Details: " ++ listing)%string
       /\ occursIn ("Invalid syntax " ++ JS.dquote ++ "test" ++ JS.dquote) listing.
Proof.
  assert (H : In ("Invalid syntax " ++ JS.dquote ++ "test" ++ JS.dquote)%string
                (badRequestDetails badRequestBody))
    by (vm_compute; left; reflexivity).
  split; [exact H|].
  destruct (@message_shows_details q badRequestBody _ H)
    as (head & listing & M & _ & O).
  exists head, listing. split; [exact M | exact O].
Defined.

(** X10: cafes, restaurants and museums in a box, asked for twice, the
    second time one minute later with another output format. *)
Lemma bbox_format_witness :
  getElementsByBoundingBox healthy (client 2) printIntegral cafes paris
    allElements "out center;" fresh
  = (Next payload,
     snd (getElementsByBoundingBox healthy (client 2) printIntegral cafes paris
            allElements "out center;" fresh))
  /\ truthy payload = true
  /\ exists st3,
       getElementsByBoundingBox healthy (client 2) printIntegral cafes paris
         allElements "out geom;"
         (at_time 61010
            (snd (getElementsByBoundingBox healthy (client 2) printIntegral cafes
                    paris allElements "out center;" fresh)))
       = (Next payload, st3)
       /\ posts st3 = 1%nat.
Proof.
  assert (G : getElementsByBoundingBox healthy (client 2) printIntegral cafes paris
                allElements "out center;" fresh
              = (Next payload,
                 snd (getElementsByBoundingBox healthy (client 2) printIntegral
                        cafes paris allElements "out center;" fresh)))
    by (vm_compute; reflexivity).
  split; [exact G|]. split; [reflexivity|].
  destruct (@bbox_cache_ignores_output_format healthy (client 2) printIntegral
              cafes paris allElements "out center;"%string "out geom;"%string
              fresh _
              (at_time 61010
                 (snd (getElementsByBoundingBox healthy (client 2) printIntegral
                         cafes paris allElements "out center;" fresh)))
              payload G eq_refl eq_refl)
    as (st3 & evs & G2 & P & _ & _).
  - intros e H. vm_compute in H. injection H as <-. reflexivity.
  - exists st3. split; [exact G2 | exact P].
Defined.

(** X11: the same within 500 metres of a point. *)
Lemma radius_format_witness :
  getElementsByRadius healthy (client 2) printIntegral cafes 48 2 500
    allElements "out center;" fresh
  = (Next payload,
     snd (getElementsByRadius healthy (client 2) printIntegral cafes 48 2 500
            allElements "out center;" fresh))
  /\ truthy payload = true
  /\ exists st3,
       getElementsByRadius healthy (client 2) printIntegral cafes 48 2 500
         allElements "out geom;"
         (at_time 61010
            (snd (getElementsByRadius healthy (client 2) printIntegral cafes
                    48 2 500 allElements "out center;" fresh)))
       = (Next payload, st3)
       /\ posts st3 = 1%nat.
Proof.
  assert (G : getElementsByRadius healthy (client 2) printIntegral cafes 48 2 500
                allElements "out center;" fresh
              = (Next payload,
                 snd (getElementsByRadius healthy (client 2) printIntegral
                        cafes 48 2 500 allElements "out center;" fresh)))
    by (vm_compute; reflexivity).
  split; [exact G|]. split; [reflexivity|].
  destruct (@radius_cache_ignores_output_format healthy (client 2) printIntegral
              cafes 48%Q 2%Q 500%Q allElements "out center;"%string
              "out geom;"%string fresh _
              (at_time 61010
                 (snd (getElementsByRadius healthy (client 2) printIntegral
                         cafes 48 2 500 allElements "out center;" fresh)))
              payload G eq_refl eq_refl)
    as (st3 & evs & G2 & P & _ & _).
  - intros e H. vm_compute in H. injection H as <-. reflexivity.
  - exists st3. split; [exact G2 | exact P].
Defined.

(** X13: [payload] cached under [node-123] five minutes and half a second
    ago. *)
Lemma stale_entry_witness :
  LRUCache.peek (elementKey node 123) (lruCache expired) = Some entry
  /\ LRUCache.isStale (lruCache expired) (now expired) entry = true
  /\ getElement healthy (client 2) node 123 "out;" expired
     = query healthy (client 2) (elementQuery node 123 "out;") key
         (withCache (LRUCache.delete key (lruCache expired)) expired).
Proof.
  split; [reflexivity|]. split; [reflexivity|].
  pose proof (@stale_entry_is_refetched healthy (client 2) node 123
                "out;"%string expired entry eq_refl eq_refl) as H.
  cbv zeta in H. destruct H as (G & _ & _). exact G.
Defined.

(** X20: the empty string cached under [node-123] half a second ago. *)
Lemma falsy_entry_witness :
  LRUCache.peek (elementKey node 123) (lruCache hollow) = Some hollowEntry
  /\ LRUCache.isStale (lruCache hollow) (now hollow) hollowEntry = false
  /\ truthy (LRUCache.value hollowEntry) = false
  /\ exists evs,
       trace (snd (getElement healthy (client 2) node 123 "out;" hollow))
       = trace hollow ++ evs
       /\ (1 <= invocations evs)%nat.
Proof.
  split; [reflexivity|]. split; [reflexivity|]. split; [reflexivity|].
  pose proof (@falsy_entry_is_a_miss healthy (client 2) node 123
                "out;"%string hollow hollowEntry eq_refl eq_refl eq_refl) as H.
  cbv zeta in H. destruct H as (_ & _ & E). exact E.
Defined.

(** X14: the cache that the constructor builds, after a first lookup. *)
Lemma cache_bound_witness :
  bounded (lruCache fresh)
  /\ LRUCache.max (lruCache (snd (getElement healthy (client 2) node 123 "out;" fresh)))
     = 500%nat
  /\ bounded (lruCache (snd (getElement healthy (client 2) node 123 "out;" fresh))).
Proof.
  assert (B : bounded (lruCache fresh))
    by (right; apply Nat.leb_le; vm_compute; reflexivity).
  split; [exact B|].
  pose proof (@cache_stays_within_bound healthy (client 2) printIntegral fresh
                node 123 cafes paris 48%Q 2%Q 500%Q allElements "out;"%string B)
    as H.
  cbv zeta in H. destruct H as ((M & G) & _).
  split; [rewrite M; reflexivity | exact G].
Defined.

(** X15: cafes among the nodes of a box. *)
Lemma bbox_query_witness :
  In ("amenity"%string, ["cafe"; "restaurant"]%string) cafes
  /\ In "cafe"%string ["cafe"; "restaurant"]%string
  /\ In node allElements
  /\ occursIn (bboxStatement printIntegral paris "amenity" "cafe" node)
       (bboxQuery printIntegral cafes paris allElements "out center;").
Proof.
  assert (T : In ("amenity"%string, ["cafe"; "restaurant"]%string) cafes)
    by (left; reflexivity).
  assert (V : In "cafe"%string ["cafe"; "restaurant"]%string)
    by (left; reflexivity).
  assert (E : In node allElements) by (left; reflexivity).
  split; [exact T|]. split; [exact V|]. split; [exact E|].
  destruct (@bbox_query_complete printIntegral cafes paris allElements
              "out center;"%string "amenity"%string "cafe"%string _ node T V E)
    as [O _].
  exact O.
Defined.

(** X16: museums among the ways around a point. *)
Lemma radius_query_witness :
  In ("tourism"%string, ["museum"]%string) cafes
  /\ In "museum"%string ["museum"]%string
  /\ In way allElements
  /\ occursIn (radiusStatement printIntegral 48 2 500 "tourism" "museum" way)
       (radiusQuery printIntegral cafes 48 2 500 allElements "out center;").
Proof.
  assert (T : In ("tourism"%string, ["museum"]%string) cafes)
    by (right; left; reflexivity).
  assert (V : In "museum"%string ["museum"]%string) by (left; reflexivity).
  assert (E : In way allElements) by (right; left; reflexivity).
  split; [exact T|]. split; [exact V|]. split; [exact E|].
  destruct (@radius_query_complete printIntegral cafes 48%Q 2%Q 500%Q allElements
              "out center;"%string "tourism"%string "museum"%string _ way T V E)
    as [O _].
  exact O.
Defined.

(** X17: three retries allowed, two failures with status 500, then the
    payload. *)
Lemma recovery_witness :
  Z.of_nat 2 < maxRetries (client 3)
  /\ (forall i, (i < 2)%nat ->
        exists r,
          responses recoveringTwice (posts fresh + i) = Rejected (AxiosError (Some r))
          /\ isRetryableStatus (status r) = true)
  /\ responses recoveringTwice (posts fresh + 2) = Resolved payload
  /\ fst (query recoveringTwice (client 3) q key fresh) = Next payload
  /\ posts (snd (query recoveringTwice (client 3) q key fresh)) = 3%nat.
Proof.
  assert (F : forall i, (i < 2)%nat ->
                exists r,
                  responses recoveringTwice (posts fresh + i)
                  = Rejected (AxiosError (Some r))
                  /\ isRetryableStatus (status r) = true).
  { intros [|[|i]] Hi.
    - eexists. split; reflexivity.
    - eexists. split; reflexivity.
    - exfalso. lia. }
  split; [reflexivity|]. split; [exact F|]. split; [reflexivity|].
  exact (@query_recovers recoveringTwice (client 3) q key fresh 2 payload
           eq_refl F eq_refl).
Defined.

(** X19: a 429 with [retry-after: 1.5]. *)
Lemma leading_integer_witness :
  status (rateLimited "1.5") = 429
  /\ header "retry-after" (rateLimited "1.5") = Some ("1" ++ ".5")%string
  /\ NilZero.uint_of_string "1" = Some (Decimal.D1 Decimal.Nil)
  /\ JS.digit "." = None
  /\ exists st1,
       subscribeForRetry 4 3
         (delay (world [failed (rateLimited "1.5")] (Resolved payload))
            (client 3) q key)
         (source (world [failed (rateLimited "1.5")] (Resolved payload))
            (client 3) q key) 0 fresh
       = subscribeForRetry 3 3
           (delay (world [failed (rateLimited "1.5")] (Resolved payload))
              (client 3) q key)
           (source (world [failed (rateLimited "1.5")] (Resolved payload))
              (client 3) q key) 1 st1
       /\ nth_error (trace st1) 3 = Some (EvWait (JS.Num (inject_Z 1000)))
       /\ draws st1 = 0%nat.
Proof.
  split; [reflexivity|]. split; [reflexivity|]. split; [reflexivity|].
  split; [reflexivity|].
  destruct (@retry_after_leading_integer
              (world [failed (rateLimited "1.5")] (Resolved payload))
              (client 3) q key 3 0 fresh (rateLimited "1.5")
              "1"%string ".5"%string (Decimal.D1 Decimal.Nil)
              eq_refl eq_refl eq_refl eq_refl eq_refl
              (or_intror (ex_intro _ "."%char
                            (ex_intro _ "5"%string (conj eq_refl eq_refl)))))
    as (st1 & L & T & D).
  - intro C. discriminate C.
  - exists st1. split; [exact L|]. rewrite T. split; [reflexivity | exact D].
Defined.

End FurtherRuns.
